(** * Convex decomposition of a walkable area: src/navigation/recast.ts

    A shallow embedding of the TypeScript module.  A JavaScript [number] is an
    IEEE 754 binary64 value, so coordinates are Rocq's primitive [float]s and
    every arithmetic operator and comparison of the source is the
    corresponding primitive operation.  Array lengths and indices stay in
    [nat].  The [Map] and [Set] of the merge step are stdpp's [gmap] and
    [gset]. *)

From Stdlib Require Import ZArith List Bool Lia Sorted.
From Stdlib Require Import Floats.
From stdpp Require Import gmap.

Set Warnings "-inexact-float".

(** ** Data model *)

(** [type Point = { x: number; y: number }] *)
Record Point : Type := mkPoint { x : float; y : float }.

(** [type Polygon = Point[]] *)
Abbreviation Polygon := (list Point).

(** The stand-in for [undefined] where a point is expected: arithmetic on an
    [undefined] coordinate gives [NaN].  It only shows up when the external
    triangulator returns too few indices. *)
Definition undefinedPoint : Point := {| x := nan; y := nan |}.

(** [poly[i]].  The source reads a polygon at a loop index below its length
    or at a remainder modulo its length, so no read is past the end. *)
Definition at_index (poly : Polygon) (i : nat) : Point := nth i poly undefinedPoint.

(** ** Geometry primitives *)

(** The literal [1e-6] of [pointsEqual]. *)
Definition tolerance : float := 1e-6%float.

(** [Math.abs(a.x - b.x) < 1e-6 && Math.abs(a.y - b.y) < 1e-6] *)
Definition pointsEqual (a b : Point) : bool :=
  (abs (x a - x b) <? tolerance)%float && (abs (y a - y b) <? tolerance)%float.

(** [Math.sign]: 1 for positive, -1 for negative numbers, the argument itself
    for [+0], [-0] and [NaN]. *)
Definition Math_sign (v : float) : float :=
  if (0 <? v)%float then 1%float
  else if (v <? 0)%float then (-1)%float
  else v.

(** [v !== w] on numbers: IEEE inequality ([NaN !== NaN], [+0 === -0]). *)
Definition strict_ne (v w : float) : bool := negb (v =? w)%float.

(** [(b.x - a.x) * (c.y - b.y) - (b.y - a.y) * (c.x - b.x)] *)
Definition cross (a b c : Point) : float :=
  ((x b - x a) * (y c - y b) - (y b - y a) * (x c - x b))%float.

(** The cross product computed in iteration [i] of the loop of [isConvex]. *)
Definition crossAt (poly : Polygon) (i : nat) : float :=
  let n := length poly in
  cross (at_index poly i)
        (at_index poly ((i + 1) mod n))
        (at_index poly ((i + 2) mod n)).

(** The body of [for (let i = 0; i < n; i++)] in [isConvex], run over the
    remaining values of [i] with the current value of [sign]; [false] is the
    early [return false]. *)
Fixpoint isConvex_loop (poly : Polygon) (idxs : list nat) (sign : float) : bool :=
  match idxs with
  | [] => true
  | i :: rest =>
      let cr := crossAt poly i in
      if strict_ne cr 0 then
        if (sign =? 0)%float then isConvex_loop poly rest (Math_sign cr)
        else if strict_ne (Math_sign cr) sign then false
        else isConvex_loop poly rest sign
      else isConvex_loop poly rest sign
  end.

Definition isConvex (poly : Polygon) : bool :=
  let n := length poly in
  if (n <? 3)%nat then false
  else isConvex_loop poly (seq 0 n) 0%float.

(** [poly.map((p, i) => [p, poly[(i + 1) % poly.length]])] *)
Definition getEdges (poly : Polygon) : list (Point * Point) :=
  imap (fun i p => (p, at_index poly ((i + 1) mod length poly))) poly.

(** The test shared by [shareEdge] and [findSharedEdge]: the two edges have
    the same endpoints under [pointsEqual], in the same or in the opposite
    direction. *)
Definition edgesMatch (e1 e2 : Point * Point) : bool :=
  (pointsEqual (fst e1) (fst e2) && pointsEqual (snd e1) (snd e2))
  || (pointsEqual (fst e1) (snd e2) && pointsEqual (snd e1) (fst e2)).

(** [edges1.some(e1 => edges2.some(e2 => ...))] *)
Definition shareEdge (tri1 tri2 : Polygon) : bool :=
  let edges1 := getEdges tri1 in
  let edges2 := getEdges tri2 in
  existsb (fun e1 => existsb (fun e2 => edgesMatch e1 e2) edges2) edges1.

(** ** Polygon fusion *)

(** The inner loop of [findSharedEdge]: [for (const edge2 of getEdges(poly2))]
    for one [edge = [a, b]] of the first polygon. *)
Fixpoint findSharedEdge_inner (edge : Point * Point) (edges2 : list (Point * Point))
  : option (Point * Point) :=
  match edges2 with
  | [] => None
  | edge2 :: rest =>
      let '(a, b) := edge in
      let '(c, d) := edge2 in
      if (pointsEqual a c && pointsEqual b d) || (pointsEqual a d && pointsEqual b c)
      then Some (a, b)
      else findSharedEdge_inner edge rest
  end.

(** The outer loop: [for (const edge of edges1)]. *)
Fixpoint findSharedEdge_outer (edges1 edges2 : list (Point * Point))
  : option (Point * Point) :=
  match edges1 with
  | [] => None
  | edge :: rest =>
      match findSharedEdge_inner edge edges2 with
      | Some e => Some e
      | None => findSharedEdge_outer rest edges2
      end
  end.

Definition findSharedEdge (poly1 poly2 : Polygon) : option (Point * Point) :=
  findSharedEdge_outer (getEdges poly1) (getEdges poly2).

(** [Array.prototype.findIndex]: the first position whose element passes the
    test, [-1] when there is none. *)
Fixpoint findIndex (test : Point -> bool) (poly : Polygon) : Z :=
  match poly with
  | [] => (-1)%Z
  | p :: rest =>
      if test p then 0%Z
      else let k := findIndex test rest in
           if (k <? 0)%Z then (-1)%Z else (k + 1)%Z
  end.

(** The innermost loop of [mergePolygons],
    [for (let i = 1; i < poly2.length - 1; i++)], with [count] iterations
    left: it pushes [poly2[index]] and advances [index] cyclically. *)
Fixpoint spliceLoop (poly2 : Polygon) (count : nat) (newPoly : Polygon) (index : nat)
  : Polygon * nat :=
  match count with
  | O => (newPoly, index)
  | S count' =>
      spliceLoop poly2 count' (newPoly ++ [at_index poly2 index])
                 ((index + 1) mod length poly2)
  end.

(** [for (const p of poly1)] of [mergePolygons]; [index] is the variable
    declared before the loop, so it keeps its value from one vertex of
    [poly1] to the next. *)
Fixpoint mergeLoop (edgeStart : Point) (poly2 : Polygon) (rest1 : Polygon)
                   (newPoly : Polygon) (index : nat) : Polygon :=
  match rest1 with
  | [] => newPoly
  | p :: rest =>
      let newPoly := newPoly ++ [p] in
      if negb (pointsEqual p edgeStart) then mergeLoop edgeStart poly2 rest newPoly index
      else
        let '(newPoly, index) := spliceLoop poly2 (length poly2 - 2) newPoly index in
        mergeLoop edgeStart poly2 rest newPoly index
  end.

(** [mergePolygons]; [None] is the [null] result.  [%] is the remainder of
    the truncated division.  [poly2] is not empty once a shared edge has been
    found, so the divisor is never zero. *)
Definition mergePolygons (poly1 poly2 : Polygon) : option Polygon :=
  match findSharedEdge poly1 poly2 with
  | None => None
  | Some sharedEdge =>
      let edgeStart := fst sharedEdge in
      let index := findIndex (fun p => pointsEqual p edgeStart) poly2 in
      let index := Z.to_nat (Z.rem (index + 1) (Z.of_nat (length poly2))) in
      Some (mergeLoop edgeStart poly2 poly1 [] index)
  end.

(** ** Input validation *)

(** What can be thrown: the three [throw new Error(...)] of [validateInput],
    where the number carried by the obstacle errors is the [i + 1] printed in
    the message, and whatever the external triangulator throws, which no
    function of this module catches. *)
Inductive Error : Type :=
  | BoundingBoxError              (* "矩形区域必须为4个点" *)
  | ObstaclePointsError (k : nat) (* "障碍物k至少需要3个点" *)
  | ObstacleConvexError (k : nat) (* "障碍物k必须是凸多边形" *)
  | TriangulatorError.

(** A computation that returns a value or throws. *)
Inductive Result (A : Type) : Type :=
  | Ok (a : A)
  | Throw (e : Error).
Arguments Ok {A} a.
Arguments Throw {A} e.

Definition bindResult {A B : Type} (r : Result A) (k : A -> Result B) : Result B :=
  match r with
  | Ok a => k a
  | Throw e => Throw e
  end.

Notation "r >>=! k" := (bindResult r k) (at level 50, left associativity).

(** [obstacles.forEach((obstacle, i) => ...)], from position [i] on. *)
Fixpoint validateObstacles (obstacles : list Polygon) (i : nat) : Result unit :=
  match obstacles with
  | [] => Ok tt
  | obstacle :: rest =>
      if (length obstacle <? 3)%nat then Throw (ObstaclePointsError (i + 1))
      else if negb (isConvex obstacle) then Throw (ObstacleConvexError (i + 1))
      else validateObstacles rest (i + 1)
  end.

Definition validateInput (boundingBox : Polygon) (obstacles : list Polygon) : Result unit :=
  if negb (length boundingBox =? 4)%nat then Throw BoundingBoxError
  else validateObstacles obstacles 0.

(** ** Triangulation input *)

Record EarcutInput : Type := mkEarcutInput { vertices : list float; holes : list nat }.

(** [poly.forEach(p => { vertices.push(p.x, p.y); })] *)
Fixpoint pushPoints (vertices : list float) (poly : Polygon) : list float :=
  match poly with
  | [] => vertices
  | p :: rest => pushPoints (vertices ++ [x p; y p]) rest
  end.

(** [obstacles.forEach(obstacle => ...)] with the three variables it
    updates. *)
Fixpoint pushObstacles (obstacles : list Polygon) (vertices : list float)
                       (holes : list nat) (vertexOffset : nat) : EarcutInput :=
  match obstacles with
  | [] => {| vertices := vertices; holes := holes |}
  | obstacle :: rest =>
      let holes := holes ++ [vertexOffset] in
      let vertices := pushPoints vertices obstacle in
      pushObstacles rest vertices holes (vertexOffset + length obstacle)
  end.

Definition prepareEarcutInput (boundingBox : Polygon) (obstacles : list Polygon)
  : EarcutInput :=
  let vertices := pushPoints [] boundingBox in
  pushObstacles obstacles vertices [] (length boundingBox).

(** ** Adjacency graph and convex merge *)

(** [triangles[i]]; every index used below is smaller than
    [triangles.length]. *)
Definition triangleAt (triangles : list Polygon) (i : nat) : Polygon := nth i triangles [].

(** The inner loop [for (let j = 0; j < triangles.length; j++)] for a fixed
    [i]: [adjacencyMap.get(i)!.push(j)] unless [i == j] or the two triangles
    share no edge. *)
Fixpoint adjacencyRow (triangles : list Polygon) (i : nat) (js : list nat)
                      (adjacencyMap : gmap nat (list nat)) : gmap nat (list nat) :=
  match js with
  | [] => adjacencyMap
  | j :: rest =>
      if (i =? j)%nat || negb (shareEdge (triangleAt triangles i) (triangleAt triangles j))
      then adjacencyRow triangles i rest adjacencyMap
      else adjacencyRow triangles i rest (alter (fun row => row ++ [j]) i adjacencyMap)
  end.

(** The outer loop: [adjacencyMap.set(i, [])], then the inner loop. *)
Fixpoint adjacencyLoop (triangles : list Polygon) (idxs : list nat)
                       (adjacencyMap : gmap nat (list nat)) : gmap nat (list nat) :=
  match idxs with
  | [] => adjacencyMap
  | i :: rest =>
      adjacencyLoop triangles rest
        (adjacencyRow triangles i (seq 0 (length triangles)) (<[i := []]> adjacencyMap))
  end.

Definition buildAdjacencyMap (triangles : list Polygon) : gmap nat (list nat) :=
  adjacencyLoop triangles (seq 0 (length triangles)) ∅.

(** [for (const neighborIdx of adjacencyMap.get(i) || [])] with the two
    variables it updates, [mergedPoly] and [visited]. *)
Fixpoint mergeNeighbors (triangles : list Polygon) (neighbors : list nat)
                        (mergedPoly : Polygon) (visited : gset nat) : Polygon * gset nat :=
  match neighbors with
  | [] => (mergedPoly, visited)
  | neighborIdx :: rest =>
      if decide (neighborIdx ∈ visited) then mergeNeighbors triangles rest mergedPoly visited
      else
        match mergePolygons mergedPoly (triangleAt triangles neighborIdx) with
        | Some candidate =>
            if isConvex candidate
            then mergeNeighbors triangles rest candidate ({[neighborIdx]} ∪ visited)
            else mergeNeighbors triangles rest mergedPoly visited
        | None => mergeNeighbors triangles rest mergedPoly visited
        end
  end.

(** The second [for (let i = 0; i < triangles.length; i++)] of
    [mergeTrianglesToConvexPolygons]. *)
Fixpoint mergeLoopTriangles (triangles : list Polygon) (adjacencyMap : gmap nat (list nat))
                            (idxs : list nat) (visited : gset nat) (result : list Polygon)
  : list Polygon :=
  match idxs with
  | [] => result
  | i :: rest =>
      if decide (i ∈ visited) then mergeLoopTriangles triangles adjacencyMap rest visited result
      else
        let mergedPoly := triangleAt triangles i in
        let visited := {[i]} ∪ visited in
        let '(mergedPoly, visited) :=
          mergeNeighbors triangles (default [] (adjacencyMap !! i)) mergedPoly visited in
        mergeLoopTriangles triangles adjacencyMap rest visited (result ++ [mergedPoly])
  end.

Definition mergeTrianglesToConvexPolygons (triangles : list Polygon) : list Polygon :=
  let adjacencyMap := buildAdjacencyMap triangles in
  mergeLoopTriangles triangles adjacencyMap (seq 0 (length triangles)) ∅ [].

(** ** The pipeline *)

Section Pipeline.

(** The external triangulator [earcut(vertices, holes, 2)]: from the flat
    coordinate buffer, the hole start indices and the dimension it returns a
    flat list of vertex indices, three per triangle, unless it throws. *)
Variable earcut : list float -> list nat -> nat -> Result (list nat).

(** [vertices[idx]]; a read past the end gives [undefined], which behaves as
    [NaN] in the arithmetic done on coordinates. *)
Definition coordAt (vertices : list float) (idx : nat) : float := nth idx vertices nan.

(** [{ x: vertices[idx], y: vertices[idx + 1] }] for [idx = indices[i + j] * 2]. *)
Definition vertexOf (vertices : list float) (vertexIndex : nat) : Point :=
  let idx := vertexIndex * 2 in
  {| x := coordAt vertices idx; y := coordAt vertices (idx + 1) |}.

(** [for (let i = 0; i < indices.length; i += 3)]: three indices per
    triangle; when the list stops short the missing indices are [undefined]
    and so are the coordinates read through them. *)
Fixpoint trianglesOf (vertices : list float) (indices : list nat) : list Polygon :=
  match indices with
  | [] => []
  | [i0] => [[vertexOf vertices i0; undefinedPoint; undefinedPoint]]
  | [i0; i1] => [[vertexOf vertices i0; vertexOf vertices i1; undefinedPoint]]
  | i0 :: i1 :: i2 :: rest =>
      [vertexOf vertices i0; vertexOf vertices i1; vertexOf vertices i2]
      :: trianglesOf vertices rest
  end.

Definition triangulateWithEarcut (vertices : list float) (holes : list nat)
  : Result (list Polygon) :=
  earcut vertices holes 2 >>=! fun indices =>
  Ok (trianglesOf vertices indices).

Definition decomposeWalkableArea (boundingBox : Polygon) (obstacles : list Polygon)
  : Result (list Polygon) :=
  validateInput boundingBox obstacles >>=! fun _ =>
  let input := prepareEarcutInput boundingBox obstacles in
  triangulateWithEarcut (vertices input) (holes input) >>=! fun triangles =>
  Ok (mergeTrianglesToConvexPolygons triangles).

End Pipeline.

(** ** Auxiliary notions used in the statements *)

(** One coordinate test of [pointsEqual]: [Math.abs(u - v) < 1e-6]. *)
Definition closeTo (u v : float) : bool := (abs (u - v) <? tolerance)%float.

(** A specified float that is neither an infinity nor NaN. *)
Definition SFfinite (u : spec_float) : Prop :=
  match u with
  | S754_zero _ | S754_finite _ _ _ => True
  | _ => False
  end.

(** Both coordinates are finite numbers. *)
Definition finitePoint (p : Point) : bool := is_finite (x p) && is_finite (y p).

(** *** The convexity test as the specification words it

    The edge vector leaving vertex [i], the 2D cross product of two vectors,
    and the cross product of the consecutive edge vectors at vertex [i]. *)
Definition edgeVector (poly : Polygon) (i : nat) : float * float :=
  let n := length poly in
  let p := at_index poly (i mod n) in
  let q := at_index poly ((i + 1) mod n) in
  ((x q - x p)%float, (y q - y p)%float).

Definition cross2D (u v : float * float) : float :=
  (fst u * snd v - snd u * fst v)%float.

Definition crossProducts (poly : Polygon) : list float :=
  map (fun i => cross2D (edgeVector poly i) (edgeVector poly (i + 1)))
      (seq 0 (length poly)).

(** Two numbers have a different sign. *)
Definition signDiffers (v w : float) : bool := strict_ne (Math_sign v) (Math_sign w).

(** Fewer than 3 points: not convex.  Otherwise the zero cross products are
    dropped, and the polygon is not convex exactly when some nonzero cross
    product after the first one has a sign different from the first one's. *)
Definition isConvex_spec (poly : Polygon) : bool :=
  if (length poly <? 3)%nat then false
  else
    match List.filter (fun c => strict_ne c 0) (crossProducts poly) with
    | [] => true
    | first :: later => negb (existsb (fun c => signDiffers c first) later)
    end.

(** *** Reading the adjacency map *)

(** The adjacency map lists [j] among the neighbours of [i]. *)
Definition listsNeighbor (adjacencyMap : gmap nat (list nat)) (i j : nat) : Prop :=
  exists row, adjacencyMap !! i = Some row /\ In j row.

(** The test [!(i == j || !shareEdge(triangles[i], triangles[j]))] that lets
    [j] into the row of [i]. *)
Definition adjacent (triangles : list Polygon) (i j : nat) : bool :=
  negb ((i =? j)%nat || negb (shareEdge (triangleAt triangles i) (triangleAt triangles j))).

(** Some edge of the first polygon and some edge of the second have the same
    endpoints under [pointsEqual], in the same or in the opposite
    direction. *)
Definition haveSharedEdge (poly1 poly2 : Polygon) : Prop :=
  exists a b c d,
    In (a, b) (getEdges poly1) /\ In (c, d) (getEdges poly2) /\
    ((pointsEqual a c = true /\ pointsEqual b d = true)
     \/ (pointsEqual a d = true /\ pointsEqual b c = true)).

(** *** Reading the triangulation input *)

(** The coordinates of the points of a polygon, [x] then [y], point after
    point. *)
Definition coordsOf (poly : Polygon) : list float :=
  flat_map (fun p => [x p; y p]) poly.

(** The hole start indices of the obstacles when [vertexOffset] vertices come
    before the first one. *)
Fixpoint holeStarts (vertexOffset : nat) (obstacles : list Polygon) : list nat :=
  match obstacles with
  | [] => []
  | obstacle :: rest => vertexOffset :: holeStarts (vertexOffset + length obstacle) rest
  end.

(** *** Reading the validation *)

(** An obstacle that [validateInput] lets through: at least 3 points and
    convex by [isConvex]. *)
Definition validObstacle (obstacle : Polygon) : Prop :=
  3 <= length obstacle /\ isConvex obstacle = true.

(** The error thrown for an offending obstacle found at 0-based position
    [i]. *)
Definition obstacleError (obstacle : Polygon) (i : nat) : Error :=
  if (length obstacle <? 3)%nat then ObstaclePointsError (i + 1)
  else ObstacleConvexError (i + 1).

(** [e] is the error for the first obstacle of the list that is not valid. *)
Definition firstInvalidObstacle (obstacles : list Polygon) (e : Error) : Prop :=
  exists before obstacle after,
    obstacles = before ++ obstacle :: after
    /\ Forall validObstacle before
    /\ ~ validObstacle obstacle
    /\ e = obstacleError obstacle (length before).

(** *** Reading the output of the merge *)

(** A polygon of the output is acceptable when it passes [isConvex] or is one
    of the triangles given, returned as it came. *)
Definition convexOrInput (triangles : list Polygon) (poly : Polygon) : Prop :=
  isConvex poly = true \/ In poly triangles.

(** *** Numbers that are integers

    [SFint X z]: the specified float [X] is finite, its exponent is not
    positive and its value is the integer [z]. *)
Definition SFint (X : spec_float) (z : Z) : Prop :=
  match X with
  | S754_zero _ => z = 0%Z
  | S754_finite s m e => (e <= 0)%Z /\ cond_Zopp s (Zpos m) = (z * 2 ^ (- e))%Z
  | _ => False
  end.

(** The number [u] is the integer [z]. *)
Definition isInt (u : float) (z : Z) : Prop := SFint (Prim2SF u) z.

(** Both coordinates of [p] are integers of absolute value below [2^25]. *)
Definition gridPoint (p : Point) : Prop :=
  exists zx zy : Z,
    isInt (x p) zx /\ isInt (y p) zy /\ (Z.abs zx < 2 ^ 25)%Z /\ (Z.abs zy < 2 ^ 25)%Z.

(** A triangle whose three vertices are grid points. *)
Definition gridTriangle (tri : Polygon) : Prop :=
  exists a b c, tri = [a; b; c] /\ gridPoint a /\ gridPoint b /\ gridPoint c.

(** The record that starts a right shift with nothing lost so far. *)
Definition exactRecord (m : Z) : shr_record :=
  {| shr_m := m; shr_r := false; shr_s := false |}.

(** *** Sample inputs *)

Definition pt (px py : float) : Point := {| x := px; y := py |}.

(** A 4-point bounding box and a small square inside it. *)
Definition sampleBox : Polygon := [pt 0 0; pt 10 0; pt 10 10; pt 0 10].
Definition smallSquare : Polygon := [pt 4 4; pt 6 4; pt 6 6; pt 4 6].

(** An arrowhead: a concave polygon with 4 points. *)
Definition arrowhead : Polygon := [pt 0 0; pt 4 2; pt 0 4; pt 1 2].

(** Three points written with one decimal that would lie on the line
    [y = 3 x]; three points of the line [y = x]; a triangle with a [NaN]
    coordinate. *)
Definition collinearTriangle : Polygon := [pt 0 0; pt 0.1 0.3; pt 0.5 1.5].
Definition diagonalTriangle : Polygon := [pt 0 0; pt 1 1; pt 2 2].
Definition nanTriangle : Polygon := [pt nan 0; pt 1 0; pt 0 1].

(** Two triangles on the edge from (0,0) to (1,0): [triangleABC] and
    [triangleBAD] lie on opposite sides of it and run through it in opposite
    directions; [triangleABD] runs through it in the same direction as
    [triangleABC]. *)
Definition triangleABC : Polygon := [pt 0 0; pt 1 0; pt 1 1].
Definition triangleBAD : Polygon := [pt 1 0; pt 0 0; pt 0 (-1)].
Definition triangleABD : Polygon := [pt 0 0; pt 1 0; pt 0 (-1)].

(** *** Reading the result of the merge step *)

(** [poly] grew out of one of the triangles given: the vertices of that
    triangle occur in it in order, and all its vertices are vertices of the
    triangles given. *)
Definition grownFromTriangle (triangles : list Polygon) (poly : Polygon) : Prop :=
  (exists i, i < length triangles /\ sublist (triangleAt triangles i) poly)
  /\ Forall (fun p => In p (concat triangles)) poly.

(** No two different triangles of the list share an edge. *)
Definition noSharedEdges (triangles : list Polygon) : Prop :=
  forall i j, i < length triangles -> j < length triangles -> i <> j ->
    shareEdge (triangleAt triangles i) (triangleAt triangles j) = false.

(** *** Reading the triangulation *)

(** The number of undefined points that complete the last triangle when the
    triangulator returns [n] indices. *)
Definition missingPoints (n : nat) : nat := (3 - n mod 3) mod 3.

(** The total number of points of the bounding box and the obstacles. *)
Definition pointCount (boundingBox : Polygon) (obstacles : list Polygon) : nat :=
  length boundingBox + length (concat obstacles).

(** *** Reading the verdict of the convexity test *)

(** The verdict of [isConvex] on the list of cross products: the nonzero
    ones after the first must have the sign of the first. *)
Definition signVerdict (crosses : list float) : bool :=
  match List.filter (fun c => strict_ne c 0) crosses with
  | [] => true
  | first :: later => negb (existsb (fun c => signDiffers c first) later)
  end.

(** The sign of [c] is [s]. *)
Definition hasSign (s c : float) : bool := (Math_sign c =? s)%float.

(** At most one number, or all of sign 1, or all of sign -1. *)
Definition oneSign (crosses : list float) : bool :=
  (length crosses <=? 1)%nat || forallb (hasSign 1) crosses || forallb (hasSign (-1)) crosses.

(** *** Numbers up to the sign of zero *)

(** The specified float with the sign of a zero forgotten. *)
Definition SFunsignedZero (u : spec_float) : spec_float :=
  match u with
  | S754_zero _ => S754_zero false
  | _ => u
  end.

(** [v] is the opposite of [w], up to the sign of a zero. *)
Definition oppositeOf (v w : float) : Prop :=
  SFunsignedZero (Prim2SF v) = SFunsignedZero (SFopp (Prim2SF w)).

(** The index of the vertex triple of a polygon of [n] points that the
    reversed polygon goes through, backwards, at its index [i]. *)
Definition reversedIndex (n i : nat) : nat :=
  if (i + 3 <=? n)%nat then n - 3 - i else 2 * n - 3 - i.

(** What the verdict depends on: how many numbers there are, whether all
    have sign 1 and whether all have sign -1. *)
Definition signSummary (crosses : list float) : nat * bool * bool :=
  (length crosses, forallb (hasSign 1) crosses, forallb (hasSign (-1)) crosses).

(** *** Polygons on integer coordinates *)

(** The point [p] has the integer coordinates [z], both below [2^25] in
    absolute value. *)
Definition gridCoords (p : Point) (z : Z * Z) : Prop :=
  isInt (x p) (fst z) /\ isInt (y p) (snd z)
  /\ (Z.abs (fst z) < 2 ^ 25)%Z /\ (Z.abs (snd z) < 2 ^ 25)%Z.

(** The cross product of [isConvex], computed on integers. *)
Definition crossZ (a b c : Z * Z) : Z :=
  ((fst b - fst a) * (snd c - snd b) - (snd b - snd a) * (fst c - fst b))%Z.

(** The cross product at the vertex triple that starts at index [i]. *)
Definition crossAtZ (zs : list (Z * Z)) (i : nat) : Z :=
  let n := length zs in
  crossZ (nth i zs (0, 0)%Z)
         (nth ((i + 1) mod n) zs (0, 0)%Z)
         (nth ((i + 2) mod n) zs (0, 0)%Z).

(** The exact test: at least 3 points, and no two cross products of opposite
    signs. *)
Definition convexZ (zs : list (Z * Z)) : bool :=
  (3 <=? length zs)%nat
  && (forallb (fun c => (0 <=? c)%Z) (map (crossAtZ zs) (seq 0 (length zs)))
      || forallb (fun c => (c <=? 0)%Z) (map (crossAtZ zs) (seq 0 (length zs)))).

(** *** Edges as a chain of points *)

(** The pairs of consecutive points of a list. *)
Definition chain (l : list Point) : list (Point * Point) := combine l (tl l).

(** An edge taken in the other direction. *)
Definition swapEdge (e : Point * Point) : Point * Point := (snd e, fst e).

(** *** Signed areas

    The area covered by polygons on integer coordinates is measured by the
    shoelace formula. *)

(** The integer held by a binary64 number; [0] for the infinities and
    [NaN]. *)
Definition toZ (u : float) : Z :=
  match Prim2SF u with
  | S754_finite s m e => cond_Zopp s (Z.shiftl (Zpos m) e)
  | _ => 0%Z
  end.

(** The integer coordinates of a point. *)
Definition pointZ (p : Point) : Z * Z := (toZ (x p), toZ (y p)).

(** The directed edges of a polygon, [getEdges], on integer coordinates. *)
Definition edgesZ (poly : Polygon) : list ((Z * Z) * (Z * Z)) :=
  map (fun e => (pointZ (fst e), pointZ (snd e))) (getEdges poly).

(** The term of the directed edge from [a] to [b] in the shoelace formula:
    [a.x * b.y - b.x * a.y]. *)
Definition wedgeZ (e : (Z * Z) * (Z * Z)) : Z :=
  (fst (fst e) * snd (snd e) - fst (snd e) * snd (fst e))%Z.

Definition sumZ (l : list Z) : Z := fold_right Z.add 0%Z l.

(** Twice the signed area of a polygon: the shoelace sum over its edges. *)
Definition twiceArea (poly : Polygon) : Z := sumZ (map wedgeZ (edgesZ poly)).


(** All triangles are wound in the same direction and none is flat. *)
Definition sameWinding (triangles : list Polygon) : bool :=
  forallb (fun tri => (0 <? twiceArea tri)%Z) triangles
  || forallb (fun tri => (twiceArea tri <? 0)%Z) triangles.





(** ** Facts about binary64 arithmetic

    The primitive operations are specified by the standard library against
    [spec_float]; the facts needed about the subtraction, the absolute value
    and the comparisons of the source are derived here from that
    specification. *)

Section SpecFloatFacts.

Variables prec emax : Z.

(** The sign given to the rounding of a mantissa only ends up as the sign
    of the result. *)
Lemma SFabs_binary_round_aux (s1 s2 : bool) (m e : Z) (l : location) :
  SFabs (binary_round_aux prec emax s1 m e l) = SFabs (binary_round_aux prec emax s2 m e l).
Proof.
  unfold binary_round_aux.
  destruct (shr_fexp prec emax m e l) as [mrs' e'].
  destruct (shr_fexp prec emax _ e' loc_Exact) as [mrs'' e''].
  destruct (shr_m mrs''); try reflexivity.
  destruct (Z.leb e'' (emax - prec)); reflexivity.
Qed.

Lemma SFabs_binary_round (s1 s2 : bool) (m : positive) (e : Z) :
  SFabs (binary_round prec emax s1 m e) = SFabs (binary_round prec emax s2 m e).
Proof.
  unfold binary_round.
  destruct (shl_align m e _) as [mz ez].
  apply SFabs_binary_round_aux.
Qed.

Lemma SFabs_binary_normalize_opp (m e : Z) (szero : bool) :
  SFabs (binary_normalize prec emax (- m) e szero)
  = SFabs (binary_normalize prec emax m e szero).
Proof.
  destruct m; simpl; try reflexivity; apply SFabs_binary_round.
Qed.

(** [|u - v| = |v - u|], exactly, for all values including infinities and
    NaN. *)
Lemma SFabs_SFsub_comm (u v : spec_float) :
  SFabs (SFsub prec emax u v) = SFabs (SFsub prec emax v u).
Proof.
  destruct u as [su | su | | su mu eu], v as [sv | sv | | sv mv ev];
    try reflexivity;
    try (destruct su, sv; reflexivity);
    try (destruct sv; reflexivity);
    try (destruct su; reflexivity).
  unfold SFsub.
  rewrite (Z.min_comm ev eu).
  rewrite <- SFabs_binary_normalize_opp.
  f_equal. f_equal. lia.
Qed.

(** [u - u] is [+0] for every finite [u]. *)
Lemma SFsub_diag (u : spec_float) :
  SFfinite u -> SFsub prec emax u u = S754_zero false.
Proof.
  destruct u as [s | s | | s m e]; simpl; try contradiction; intros _.
  - destruct s; reflexivity.
  - rewrite Z.sub_diag. reflexivity.
Qed.

(** A difference that compares below a finite bound has a finite left
    operand. *)
Lemma SFltb_abs_sub_finite (u v t : spec_float) :
  SFltb (SFabs (SFsub prec emax u v)) t = true -> SFfinite u.
Proof.
  destruct u as [su | su | | su mu eu]; simpl; try exact (fun _ => I).
  - destruct v as [sv | sv | | sv mv ev]; simpl;
      try (destruct su, sv; simpl); destruct t as [st | st | | st mt et];
      try destruct st; simpl; discriminate.
  - destruct v; simpl; discriminate.
Qed.

End SpecFloatFacts.

Lemma closeTo_spec (u v : float) :
  closeTo u v = SFltb (SFabs (SF64sub (Prim2SF u) (Prim2SF v))) (Prim2SF tolerance).
Proof. unfold closeTo. now rewrite FloatAxioms.ltb_spec, FloatAxioms.abs_spec, FloatAxioms.sub_spec. Qed.

Lemma closeTo_sym (u v : float) : closeTo u v = closeTo v u.
Proof.
  rewrite !closeTo_spec. unfold SF64sub.
  now rewrite (SFabs_SFsub_comm prec emax (Prim2SF u) (Prim2SF v)).
Qed.

Lemma closeTo_refl_SF (u : float) : SFfinite (Prim2SF u) -> closeTo u u = true.
Proof.
  intros Hfin. rewrite closeTo_spec. unfold SF64sub.
  rewrite SFsub_diag by exact Hfin. reflexivity.
Qed.

Lemma closeTo_finite_l (u v : float) : closeTo u v = true -> SFfinite (Prim2SF u).
Proof. rewrite closeTo_spec. apply SFltb_abs_sub_finite. Qed.

(** [is_finite] excludes exactly the infinities and NaN. *)
Lemma is_finite_SFfinite (u : float) : is_finite u = true -> SFfinite (Prim2SF u).
Proof.
  unfold is_finite, Prim2SF. intros Hfin.
  destruct (is_nan u); [discriminate |].
  destruct (is_zero u); [exact I |].
  destruct (is_infinity u); [discriminate |].
  destruct (Z.frexp u) as [r e].
  destruct (shr_fexp prec emax _ _ loc_Exact) as [mrs e'].
  destruct (shr_m mrs); exact I.
Qed.

Lemma pointsEqual_closeTo (a b : Point) :
  pointsEqual a b = closeTo (x a) (x b) && closeTo (y a) (y b).
Proof. reflexivity. Qed.

(** Symmetry of [pointsEqual], for all points. *)
Lemma pointsEqual_sym (a b : Point) : pointsEqual a b = pointsEqual b a.
Proof.
  rewrite !pointsEqual_closeTo.
  now rewrite (closeTo_sym (x a)), (closeTo_sym (y a)).
Qed.

(** Reflexivity of [pointsEqual] at points whose coordinates are finite. *)
Lemma pointsEqual_refl_finite (p : Point) :
  is_finite (x p) = true -> is_finite (y p) = true -> pointsEqual p p = true.
Proof.
  intros Hx Hy. rewrite pointsEqual_closeTo.
  rewrite !closeTo_refl_SF by now apply is_finite_SFfinite.
  reflexivity.
Qed.

(** A point that is equal to some point is equal to itself. *)
Lemma pointsEqual_refl_l (a b : Point) : pointsEqual a b = true -> pointsEqual a a = true.
Proof.
  rewrite !pointsEqual_closeTo. intros [Hx Hy]%andb_true_iff.
  rewrite !closeTo_refl_SF by (eapply closeTo_finite_l; eassumption).
  reflexivity.
Qed.

Lemma pointsEqual_refl_r (a b : Point) : pointsEqual a b = true -> pointsEqual b b = true.
Proof. rewrite pointsEqual_sym. apply pointsEqual_refl_l. Qed.

(** A nonzero number never has sign zero: [sign === 0] in [isConvex] holds
    exactly as long as no nonzero cross product has been seen. *)
Lemma Math_sign_nonzero (v : float) :
  strict_ne v 0 = true -> (Math_sign v =? 0)%float = false.
Proof.
  unfold strict_ne, Math_sign. intros Hv.
  destruct (0 <? v)%float; [reflexivity |].
  destruct (v <? 0)%float; [reflexivity |].
  now apply negb_true_iff.
Qed.

(** [is_finite], read on the specification side. *)
Lemma is_finite_spec (u : float) :
  is_finite u = match Prim2SF u with
                | S754_zero _ | S754_finite _ _ _ => true
                | _ => false
                end.
Proof.
  unfold is_finite, is_nan, is_infinity.
  rewrite !FloatAxioms.eqb_spec, FloatAxioms.abs_spec.
  change (Prim2SF infinity) with (S754_infinity false).
  destruct (Prim2SF u) as [s | s | | s m e]; try reflexivity.
  - destruct s; reflexivity.
  - unfold SFeqb. simpl.
    rewrite Z.compare_refl, Pos.compare_cont_refl.
    destruct s; reflexivity.
Qed.

(** [Math.abs(u - u) < 1e-6] holds exactly for the finite [u]. *)
Lemma closeTo_diag (u : float) : closeTo u u = is_finite u.
Proof.
  rewrite is_finite_spec.
  destruct (closeTo u u) eqn:Hc.
  - apply closeTo_finite_l in Hc. destruct (Prim2SF u); simpl in Hc; tauto.
  - destruct (Prim2SF u) eqn:Hu; try reflexivity;
      rewrite closeTo_refl_SF in Hc by (rewrite Hu; exact I); discriminate.
Qed.

(** ** Exact integer arithmetic in binary64

    Subtractions and products of integers are computed without rounding as
    long as the results stay below [2^53] in absolute value. *)

Section ExactIntegers.

Local Open Scope Z_scope.

Lemma digits2_pos_size (p : positive) : digits2_pos p = Pos.size p.
Proof. induction p as [p IH | p IH |]; simpl; now rewrite ?IH. Qed.

Lemma Zdigits2_log2 (v : Z) : 0 < v -> Zdigits2 v = Z.log2 v + 1.
Proof.
  destruct v as [| p | p]; try lia. intros _. simpl.
  rewrite digits2_pos_size. destruct p as [p | p |]; simpl; lia.
Qed.

Lemma Zdigits2_shift (v k : Z) : 0 < v -> 0 <= k -> Zdigits2 (v * 2 ^ k) = Zdigits2 v + k.
Proof.
  intros Hv Hk.
  assert (0 < 2 ^ k) by now apply Z.pow_pos_nonneg.
  rewrite !Zdigits2_log2 by nia.
  rewrite Z.log2_mul_pow2 by lia. lia.
Qed.

Lemma Zdigits2_bounds (v : Z) : 0 < v -> v < 2 ^ 53 -> 1 <= Zdigits2 v <= 53.
Proof.
  intros Hv Hlt. rewrite Zdigits2_log2 by exact Hv.
  pose proof (Z.log2_nonneg v).
  apply Z.log2_lt_pow2 in Hlt; lia.
Qed.

(** One step to the right of an even mantissa loses nothing. *)
Lemma shr_1_double (v : Z) : shr_1 (exactRecord (2 * v)) = exactRecord v.
Proof. destruct v as [| p | p]; reflexivity. Qed.

(** Nor do [p] steps when the mantissa is a multiple of [2^p]. *)
Lemma iter_shr_1_exact (p : positive) (v : Z) :
  SpecFloat.iter_pos shr_1 p (exactRecord (v * 2 ^ Zpos p)) = exactRecord v.
Proof.
  revert v. induction p as [p IH | p IH |]; intros v; cbn [SpecFloat.iter_pos].
  - replace (v * 2 ^ Zpos p~1) with (2 * ((v * 2 ^ Zpos p) * 2 ^ Zpos p)).
    + now rewrite shr_1_double, !IH.
    + replace (Zpos p~1) with (Zpos p + Zpos p + 1) by lia.
      rewrite !Z.pow_add_r by lia. change (2 ^ 1) with 2. ring.
  - replace (v * 2 ^ Zpos p~0) with ((v * 2 ^ Zpos p) * 2 ^ Zpos p).
    + now rewrite !IH.
    + replace (Zpos p~0) with (Zpos p + Zpos p) by lia.
      rewrite Z.pow_add_r by lia. ring.
  - change (2 ^ 1) with 2. rewrite Z.mul_comm. apply shr_1_double.
Qed.

Lemma fexp_small (d : Z) : 1 <= d -> fexp prec emax d = d - 53.
Proof. unfold fexp, SpecFloat.emin, prec, emax. lia. Qed.

Lemma shr_fexp_exact (m : positive) (E : Z) :
  1 <= Zdigits2 (Zpos m) + E ->
  shr_fexp prec emax (Zpos m) E loc_Exact
  = shr (exactRecord (Zpos m)) E (Zdigits2 (Zpos m) + E - 53 - E).
Proof. intros Hd. unfold shr_fexp. now rewrite fexp_small. Qed.

(** A mantissa of at most 53 digits is left as it is. *)
Lemma binary_round_aux_fits (s : bool) (m : positive) (E : Z) :
  1 <= Zdigits2 (Zpos m) + E -> Zdigits2 (Zpos m) <= 53 -> E <= 0 ->
  binary_round_aux prec emax s (Zpos m) E loc_Exact = S754_finite s m E.
Proof.
  intros Hd Hfit HE. unfold binary_round_aux.
  rewrite shr_fexp_exact by exact Hd.
  assert (Hshr : shr (exactRecord (Zpos m)) E (Zdigits2 (Zpos m) + E - 53 - E)
                 = (exactRecord (Zpos m), E)).
  { unfold shr. destruct (Zdigits2 (Zpos m) + E - 53 - E) eqn:Hn; try reflexivity. lia. }
  rewrite Hshr. cbn [shr_m exactRecord loc_of_shr_record round_nearest_even].
  rewrite shr_fexp_exact by exact Hd. rewrite Hshr. cbn [shr_m exactRecord].
  replace (E <=? emax - prec) with true; [reflexivity |].
  symmetry. apply Z.leb_le. unfold emax, prec. lia.
Qed.

(** Rounding a positive mantissa whose value is an integer below [2^53]
    gives that integer. *)
Lemma binary_round_aux_int (s : bool) (m : positive) (E v : Z) :
  0 < v < 2 ^ 53 -> E <= 0 -> Zpos m = v * 2 ^ (- E) ->
  SFint (binary_round_aux prec emax s (Zpos m) E loc_Exact) (cond_Zopp s v).
Proof.
  intros [Hv Hlt] HE Hm.
  pose proof (Zdigits2_bounds v Hv Hlt) as Hdv.
  assert (Hd : Zdigits2 (Zpos m) + E = Zdigits2 v).
  { rewrite Hm, Zdigits2_shift by lia. lia. }
  destruct (Z_le_gt_dec (Zdigits2 (Zpos m)) 53) as [Hfit | Hbig].
  - rewrite binary_round_aux_fits by lia.
    split; [exact HE |]. destruct s; cbn [cond_Zopp]; rewrite Hm; ring.
  - unfold binary_round_aux. rewrite shr_fexp_exact by lia.
    assert (Hn : exists p, Zdigits2 (Zpos m) + E - 53 - E = Zpos p).
    { destruct (Zdigits2 (Zpos m) + E - 53 - E) eqn:Hn; try lia. now eexists. }
    destruct Hn as [p Hp]. rewrite Hp. unfold shr.
    assert (Hm' : exists m', Zpos m' = v * 2 ^ (53 - Zdigits2 v)).
    { assert (0 < 2 ^ (53 - Zdigits2 v)) by (apply Z.pow_pos_nonneg; lia).
      destruct (v * 2 ^ (53 - Zdigits2 v)) eqn:Hprod; try nia. now eexists. }
    destruct Hm' as [m' Hm'].
    replace (Zpos m) with (Zpos m' * 2 ^ Zpos p).
    + rewrite iter_shr_1_exact.
      cbn [shr_m exactRecord loc_of_shr_record round_nearest_even].
      assert (Hd' : Zdigits2 (Zpos m') = 53).
      { rewrite Hm', Zdigits2_shift by lia. lia. }
      rewrite shr_fexp_exact by lia.
      assert (Hshr : shr (exactRecord (Zpos m')) (E + Zpos p)
                         (Zdigits2 (Zpos m') + (E + Zpos p) - 53 - (E + Zpos p))
                     = (exactRecord (Zpos m'), E + Zpos p)).
      { unfold shr.
        destruct (Zdigits2 (Zpos m') + (E + Zpos p) - 53 - (E + Zpos p)) eqn:Hn;
          try reflexivity. lia. }
      rewrite Hshr. cbn [shr_m exactRecord].
      replace (E + Zpos p <=? emax - prec) with true
        by (symmetry; apply Z.leb_le; unfold emax, prec; lia).
      split; [lia |].
      replace (- (E + Zpos p)) with (53 - Zdigits2 v) by lia.
      destruct s; cbn [cond_Zopp]; rewrite Hm'; ring.
    + rewrite Hm', Hm, <- Z.mul_assoc, <- Z.pow_add_r by lia.
      do 2 f_equal. lia.
Qed.

(** The same with the sign carried along. *)
Lemma binary_round_aux_signed (s : bool) (m : positive) (E z : Z) :
  Z.abs z < 2 ^ 53 -> E <= 0 -> cond_Zopp s (Zpos m) = z * 2 ^ (- E) ->
  SFint (binary_round_aux prec emax s (Zpos m) E loc_Exact) z.
Proof.
  intros Hz HE Hm.
  assert (Hpow : 0 < 2 ^ (- E)) by (apply Z.pow_pos_nonneg; lia).
  destruct s; cbn [cond_Zopp] in Hm.
  - replace z with (cond_Zopp true (- z)) by (cbn [cond_Zopp]; lia).
    apply binary_round_aux_int; [nia | exact HE | nia].
  - replace z with (cond_Zopp false z) by reflexivity.
    apply binary_round_aux_int; [nia | exact HE | nia].
Qed.

Lemma shl_align_value (m : positive) (e ez : Z) :
  ez <= e ->
  snd (shl_align m e ez) = ez /\ Zpos (fst (shl_align m e ez)) = Zpos m * 2 ^ (e - ez).
Proof.
  intros Hle. unfold shl_align.
  destruct (ez - e) as [| k | k] eqn:Hk; cbn [fst snd]; try lia.
  - replace (e - ez) with 0 by lia. rewrite Z.pow_0_r. lia.
  - split; [reflexivity |].
    replace (e - ez) with (Zpos k) by lia.
    change (Pos.iter xO m k) with (shift_pos k m).
    rewrite shift_pos_correct. rewrite Zpower_pos_nat, Zpower_nat_Z, positive_nat_Z.
    ring.
Qed.

Lemma binary_normalize_int (M E z : Z) :
  Z.abs z < 2 ^ 53 -> E <= 0 -> M = z * 2 ^ (- E) ->
  SFint (binary_normalize prec emax M E false) z.
Proof.
  intros Hz HE HM.
  assert (Hpow : 0 < 2 ^ (- E)) by (apply Z.pow_pos_nonneg; lia).
  assert (Hround : forall s m, cond_Zopp s (Zpos m) = z * 2 ^ (- E) ->
                     SFint (binary_round prec emax s m E) z).
  { intros s m Hm. unfold binary_round.
    assert (Hzpos : 0 < Z.abs z) by (destruct s; cbn [cond_Zopp] in Hm; nia).
    assert (Habs : Zpos m = Z.abs z * 2 ^ (- E)) by (destruct s; cbn [cond_Zopp] in Hm; nia).
    pose proof (Zdigits2_bounds (Z.abs z) Hzpos Hz) as Hdv.
    assert (Hd : Zpos (digits2_pos m) + E = Zdigits2 (Z.abs z)).
    { change (Zpos (digits2_pos m)) with (Zdigits2 (Zpos m)).
      rewrite Habs, Zdigits2_shift by lia. lia. }
    rewrite Hd, fexp_small by lia.
    destruct (Z_le_gt_dec (Zdigits2 (Z.abs z) - 53) E) as [Hle | Hgt].
    - destruct (shl_align_value m E (Zdigits2 (Z.abs z) - 53) Hle) as [Hsnd Hfst].
      destruct (shl_align m E (Zdigits2 (Z.abs z) - 53)) as [mz ez].
      cbn [fst snd] in Hsnd, Hfst. subst ez.
      apply binary_round_aux_signed; [exact Hz | lia |].
      assert (Hsplit : 2 ^ (- (Zdigits2 (Z.abs z) - 53))
                       = 2 ^ (- E) * 2 ^ (E - (Zdigits2 (Z.abs z) - 53))).
      { rewrite <- Z.pow_add_r by lia. f_equal. lia. }
      rewrite Hsplit. destruct s; cbn [cond_Zopp] in *; rewrite Hfst; nia.
    - unfold shl_align.
      destruct (Zdigits2 (Z.abs z) - 53 - E) eqn:Hk; try lia.
      now apply binary_round_aux_signed. }
  destruct M as [| m | m]; cbn [binary_normalize].
  - cbn [SFint]. nia.
  - apply Hround. cbn [cond_Zopp]. exact HM.
  - apply Hround. cbn [cond_Zopp]. exact HM.
Qed.

(** Subtraction of two integers whose difference stays below [2^53]. *)
Lemma SFsub_int (X Y : spec_float) (x y : Z) :
  SFint X x -> SFint Y y -> Z.abs (x - y) < 2 ^ 53 ->
  SFint (SFsub prec emax X Y) (x - y).
Proof.
  destruct X as [sx | sx | | sx mx ex], Y as [sy | sy | | sy my ey];
    cbn [SFint]; try contradiction.
  - intros -> -> _. destruct sx, sy; reflexivity.
  - intros -> [Hey Hy] _. cbn [SFsub SFint]. split; [exact Hey |].
    destruct sy; cbn [negb cond_Zopp] in *; lia.
  - intros [Hex Hx] -> _. cbn [SFsub SFint]. split; [exact Hex |].
    rewrite Z.sub_0_r. exact Hx.
  - intros [Hex Hx] [Hey Hy] Hlt. cbn [SFsub].
    destruct (shl_align_value mx ex (Z.min ex ey) ltac:(lia)) as [_ Hfx].
    destruct (shl_align_value my ey (Z.min ex ey) ltac:(lia)) as [_ Hfy].
    apply binary_normalize_int; [exact Hlt | lia |].
    assert (Hsx : 2 ^ (- Z.min ex ey) = 2 ^ (- ex) * 2 ^ (ex - Z.min ex ey)).
    { rewrite <- Z.pow_add_r by lia. f_equal. lia. }
    assert (Hsy : 2 ^ (- Z.min ex ey) = 2 ^ (- ey) * 2 ^ (ey - Z.min ex ey)).
    { rewrite <- Z.pow_add_r by lia. f_equal. lia. }
    rewrite Z.mul_sub_distr_r. rewrite Hsx at 1. rewrite Hsy.
    rewrite !Z.mul_assoc, <- Hx, <- Hy, Hfx, Hfy.
    destruct sx, sy; cbn [cond_Zopp]; ring.
Qed.

(** Product of two integers that stays below [2^53]. *)
Lemma SFmul_int (X Y : spec_float) (x y : Z) :
  SFint X x -> SFint Y y -> Z.abs (x * y) < 2 ^ 53 ->
  SFint (SFmul prec emax X Y) (x * y).
Proof.
  destruct X as [sx | sx | | sx mx ex], Y as [sy | sy | | sy my ey];
    cbn [SFint]; try contradiction.
  - intros -> -> _. reflexivity.
  - intros -> _ _. reflexivity.
  - intros _ -> _. cbn [SFmul SFint]. lia.
  - intros [Hex Hx] [Hey Hy] Hlt. cbn [SFmul].
    apply binary_round_aux_signed; [exact Hlt | lia |].
    replace (- (ex + ey)) with (- ex + - ey) by lia.
    rewrite Z.pow_add_r by lia.
    replace (x * y * (2 ^ (- ex) * 2 ^ (- ey)))
      with ((x * 2 ^ (- ex)) * (y * 2 ^ (- ey))) by ring.
    rewrite <- Hx, <- Hy, Pos2Z.inj_mul.
    destruct sx, sy; cbn [xorb cond_Zopp]; ring.
Qed.

End ExactIntegers.

Lemma sub_isInt (u w : float) (x y : Z) :
  isInt u x -> isInt w y -> (Z.abs (x - y) < 2 ^ 53)%Z -> isInt (u - w)%float (x - y)%Z.
Proof. unfold isInt. rewrite FloatAxioms.sub_spec. apply SFsub_int. Qed.

Lemma mul_isInt (u w : float) (x y : Z) :
  isInt u x -> isInt w y -> (Z.abs (x * y) < 2 ^ 53)%Z -> isInt (u * w)%float (x * y)%Z.
Proof. unfold isInt. rewrite FloatAxioms.mul_spec. apply SFmul_int. Qed.

(** The sign of the mantissa of an integer float is the sign of the
    integer. *)
Lemma SFint_finite_sign (s : bool) (m : positive) (e z : Z) :
  SFint (S754_finite s m e) z -> if s then (z < 0)%Z else (0 < z)%Z.
Proof.
  intros [He Hm].
  assert (0 < 2 ^ (- e))%Z by (apply Z.pow_pos_nonneg; lia).
  destruct s; cbn [cond_Zopp] in Hm; nia.
Qed.

(** [u !== 0] for an integer [u]. *)
Lemma isInt_strict_ne (u : float) (z : Z) :
  isInt u z -> strict_ne u 0 = negb (z =? 0)%Z.
Proof.
  unfold isInt, strict_ne. rewrite FloatAxioms.eqb_spec.
  change (Prim2SF 0) with (S754_zero false).
  destruct (Prim2SF u) as [s | s | | s m e] eqn:Hu; cbn [SFint]; try contradiction.
  - intros ->. reflexivity.
  - intros Hint. apply SFint_finite_sign in Hint.
    destruct s; cbn; symmetry; apply negb_true_iff, Z.eqb_neq; lia.
Qed.

(** [Math.sign(u)] for a nonzero integer [u]. *)
Lemma isInt_Math_sign (u : float) (z : Z) :
  isInt u z -> z <> 0%Z -> Math_sign u = if (0 <? z)%Z then 1%float else (-1)%float.
Proof.
  unfold isInt, Math_sign. rewrite !FloatAxioms.ltb_spec.
  change (Prim2SF 0) with (S754_zero false).
  destruct (Prim2SF u) as [s | s | | s m e] eqn:Hu; cbn [SFint];
    [congruence | contradiction | contradiction |].
  intros Hint Hz. apply SFint_finite_sign in Hint.
  destruct s; cbn.
  - replace (0 <? z)%Z with false by (symmetry; apply Z.ltb_ge; lia). reflexivity.
  - replace (0 <? z)%Z with true by (symmetry; apply Z.ltb_lt; lia). reflexivity.
Qed.

(** The cross product of three grid points is computed exactly. *)
Lemma cross_isInt (a b c : Point) (ax ay bx by_ cx cy : Z) :
  isInt (x a) ax -> isInt (y a) ay -> isInt (x b) bx -> isInt (y b) by_ ->
  isInt (x c) cx -> isInt (y c) cy ->
  (Z.abs ax < 2 ^ 25)%Z -> (Z.abs ay < 2 ^ 25)%Z -> (Z.abs bx < 2 ^ 25)%Z ->
  (Z.abs by_ < 2 ^ 25)%Z -> (Z.abs cx < 2 ^ 25)%Z -> (Z.abs cy < 2 ^ 25)%Z ->
  isInt (cross a b c) ((bx - ax) * (cy - by_) - (by_ - ay) * (cx - bx))%Z.
Proof.
  intros Hax Hay Hbx Hby Hcx Hcy Bax Bay Bbx Bby Bcx Bcy.
  change (2 ^ 25)%Z with 33554432%Z in *.
  assert (Hprod : forall p q r t : Z,
             (Z.abs p < 33554432 -> Z.abs q < 33554432 ->
              Z.abs r < 33554432 -> Z.abs t < 33554432 ->
              Z.abs ((p - q) * (r - t)) < 4503599627370496)%Z).
  { intros p q r t Hp Hq Hr Ht. rewrite Z.abs_mul.
    assert (Z.abs (p - q) < 67108864)%Z by lia.
    assert (Z.abs (r - t) < 67108864)%Z by lia.
    assert (0 <= Z.abs (p - q))%Z by apply Z.abs_nonneg.
    assert (0 <= Z.abs (r - t))%Z by apply Z.abs_nonneg.
    nia. }
  pose proof (Hprod bx ax cy by_ Bbx Bax Bcy Bby) as H1.
  pose proof (Hprod by_ ay cx bx Bby Bay Bcx Bbx) as H2.
  unfold cross.
  apply sub_isInt; [apply mul_isInt | apply mul_isInt |];
    try (apply sub_isInt; try assumption);
    change (2 ^ 53)%Z with 9007199254740992%Z; lia.
Qed.

(** When all the cross products are one and the same integer, no sign
    conflict arises. *)
Lemma isConvex_loop_equal_crosses (poly : Polygon) (idxs : list nat) (z : Z) (sign : float) :
  Forall (fun i => isInt (crossAt poly i) z) idxs ->
  sign = 0%float \/ sign = (if (0 <? z)%Z then 1%float else (-1)%float) ->
  isConvex_loop poly idxs sign = true.
Proof.
  intros Hall. revert sign.
  induction Hall as [| i rest Hi Hrest IH]; intros sign Hsign; cbn [isConvex_loop];
    [reflexivity |].
  rewrite (isInt_strict_ne _ z Hi).
  destruct (Z.eqb_spec z 0) as [Hz | Hz]; cbn [negb]; [now apply IH |].
  rewrite (isInt_Math_sign _ z Hi Hz).
  destruct Hsign as [-> | ->].
  - change (0 =? 0)%float with true. cbn iota. apply IH. now right.
  - destruct (0 <? z)%Z.
    + change (1 =? 0)%float with false. change (strict_ne 1 1) with false. cbn iota.
      apply IH. now right.
    + change (-1 =? 0)%float with false. change (strict_ne (-1) (-1)) with false. cbn iota.
      apply IH. now right.
Qed.

(** A triangle on the integer grid passes [isConvex]: its three cross
    products are computed exactly and are one and the same integer. *)
Lemma isConvex_grid_triangle (a b c : Point) :
  gridPoint a -> gridPoint b -> gridPoint c -> isConvex [a; b; c] = true.
Proof.
  intros (ax & ay & Hax & Hay & Bax & Bay) (bx & by_ & Hbx & Hby & Bbx & Bby)
         (cx & cy & Hcx & Hcy & Bcx & Bcy).
  change (isConvex [a; b; c]) with (isConvex_loop [a; b; c] [0; 1; 2] 0).
  apply (isConvex_loop_equal_crosses _ _
           ((bx - ax) * (cy - by_) - (by_ - ay) * (cx - bx))%Z); [| now left].
  repeat constructor.
  - change (crossAt [a; b; c] 0) with (cross a b c).
    now apply cross_isInt.
  - change (crossAt [a; b; c] 1) with (cross b c a).
    replace ((bx - ax) * (cy - by_) - (by_ - ay) * (cx - bx))%Z
      with ((cx - bx) * (ay - cy) - (cy - by_) * (ax - cx))%Z by ring.
    now apply cross_isInt.
  - change (crossAt [a; b; c] 2) with (cross c a b).
    replace ((bx - ax) * (cy - by_) - (by_ - ay) * (cx - bx))%Z
      with ((ax - cx) * (by_ - ay) - (ay - cy) * (bx - ax))%Z by ring.
    now apply cross_isInt.
Qed.

(** [u - u] is [+0] for every finite number. *)
Lemma sub_diag_finite (u : float) : is_finite u = true -> (u - u)%float = 0%float.
Proof.
  intros Hfin. apply Prim2SF_inj. rewrite FloatAxioms.sub_spec. unfold SF64sub.
  rewrite SFsub_diag by now apply is_finite_SFfinite. reflexivity.
Qed.

(** Three vertices at one and the same finite point. *)
Lemma isConvex_coincident (p : Point) : finitePoint p = true -> isConvex [p; p; p] = true.
Proof.
  intros [Hx Hy]%andb_true_iff.
  assert (Hcross : cross p p p = 0%float).
  { unfold cross. rewrite !sub_diag_finite by assumption. reflexivity. }
  change (isConvex [p; p; p]) with (isConvex_loop [p; p; p] [0; 1; 2] 0).
  cbn [isConvex_loop].
  change (crossAt [p; p; p] 0) with (cross p p p).
  change (crossAt [p; p; p] 1) with (cross p p p).
  change (crossAt [p; p; p] 2) with (cross p p p).
  rewrite Hcross. reflexivity.
Qed.

(** ** C9: reflexivity and symmetry of [pointsEqual] *)

(** C9, as stated, fails: a point with a [NaN] coordinate is not equal to
    itself, because [Math.abs(NaN - NaN) < 1e-6] is false. *)
Lemma pointsEqual_not_reflexive :
  pointsEqual {| x := nan; y := 0 |} {| x := nan; y := 0 |} = false
  /\ pointsEqual {| x := infinity; y := 0 |} {| x := infinity; y := 0 |} = false.
Proof. split; reflexivity. Qed.

(** C9 (amended): [pointsEqual(p, p)] is true exactly for the points whose
    coordinates are both finite numbers; [pointsEqual] is symmetric for all
    points; and [pointsEqual(a, b)] holds iff both coordinate differences
    are, in absolute value, below the tolerance [1e-6]. *)
Theorem pointsEqual_reflexive_symmetric (a b : Point) :
  pointsEqual a a = finitePoint a
  /\ pointsEqual a b = pointsEqual b a
  /\ (pointsEqual a b = true <->
      (abs (x a - x b) <? 1e-6)%float = true /\ (abs (y a - y b) <? 1e-6)%float = true).
Proof.
  split; [| split].
  - rewrite pointsEqual_closeTo, !closeTo_diag. reflexivity.
  - apply pointsEqual_sym.
  - unfold pointsEqual, tolerance. apply andb_true_iff.
Qed.

(** ** C7: [isConvex] is the specified convexity test *)

Lemma edgeVector_cross (poly : Polygon) (i : nat) :
  i < length poly ->
  cross2D (edgeVector poly i) (edgeVector poly (i + 1)) = crossAt poly i.
Proof.
  intros Hi. unfold cross2D, edgeVector, crossAt, cross. simpl.
  rewrite (Nat.mod_small i) by exact Hi.
  replace ((i + 1 + 1) mod length poly) with ((i + 2) mod length poly)
    by (f_equal; lia).
  reflexivity.
Qed.

Lemma crossProducts_crossAt (poly : Polygon) :
  crossProducts poly = map (crossAt poly) (seq 0 (length poly)).
Proof.
  unfold crossProducts. apply map_ext_in.
  intros i Hi%in_seq. apply edgeVector_cross. lia.
Qed.

(** The loop once a sign is tracked: it fails at the first nonzero cross
    product whose sign is not the tracked one. *)
Lemma isConvex_loop_tracked (poly : Polygon) (idxs : list nat) (sign : float) :
  (sign =? 0)%float = false ->
  isConvex_loop poly idxs sign
  = negb (existsb (fun c => strict_ne (Math_sign c) sign)
                  (List.filter (fun c => strict_ne c 0) (map (crossAt poly) idxs))).
Proof.
  intros Hsign. induction idxs as [| i rest IH]; simpl; [reflexivity |].
  destruct (strict_ne (crossAt poly i) 0) eqn:Hnz; simpl; [| exact IH].
  rewrite Hsign.
  destruct (strict_ne (Math_sign (crossAt poly i)) sign); simpl; [reflexivity | exact IH].
Qed.

(** The loop while no nonzero cross product has been seen. *)
Lemma isConvex_loop_untracked (poly : Polygon) (idxs : list nat) :
  isConvex_loop poly idxs 0
  = match List.filter (fun c => strict_ne c 0) (map (crossAt poly) idxs) with
    | [] => true
    | first :: later => negb (existsb (fun c => signDiffers c first) later)
    end.
Proof.
  induction idxs as [| i rest IH]; simpl; [reflexivity |].
  destruct (strict_ne (crossAt poly i) 0) eqn:Hnz; simpl; [| exact IH].
  change (0 =? 0)%float with true. simpl.
  apply isConvex_loop_tracked, Math_sign_nonzero, Hnz.
Qed.

(** C7: [isConvex] computes the convexity test of the specification: false
    below 3 points; otherwise zero cross products are skipped, the sign of
    the first nonzero one is tracked, and the result is false exactly when a
    later nonzero cross product has a different sign. *)
Theorem isConvex_implements_spec (poly : Polygon) : isConvex poly = isConvex_spec poly.
Proof.
  unfold isConvex, isConvex_spec.
  destruct (length poly <? 3)%nat; [reflexivity |].
  rewrite crossProducts_crossAt. apply isConvex_loop_untracked.
Qed.

(** ** C6: [mergePolygons] fails exactly when there is no shared edge *)

Lemma edgesMatch_true (a b c d : Point) :
  edgesMatch (a, b) (c, d) = true <->
  (pointsEqual a c = true /\ pointsEqual b d = true)
  \/ (pointsEqual a d = true /\ pointsEqual b c = true).
Proof. unfold edgesMatch. simpl. rewrite orb_true_iff, !andb_true_iff. reflexivity. Qed.

Lemma findSharedEdge_inner_spec (edge : Point * Point) (edges2 : list (Point * Point)) :
  findSharedEdge_inner edge edges2
  = if existsb (fun e2 => edgesMatch edge e2) edges2 then Some edge else None.
Proof.
  destruct edge as [a b].
  induction edges2 as [| [c d] rest IH]; simpl; [reflexivity |].
  unfold edgesMatch at 1. simpl.
  destruct ((pointsEqual a c && pointsEqual b d) || (pointsEqual a d && pointsEqual b c));
    [reflexivity | exact IH].
Qed.

(** [findSharedEdge] returns the first edge of the first polygon that matches
    some edge of the second one. *)
Lemma findSharedEdge_outer_spec (edges1 edges2 : list (Point * Point)) :
  findSharedEdge_outer edges1 edges2
  = find (fun e1 => existsb (fun e2 => edgesMatch e1 e2) edges2) edges1.
Proof.
  induction edges1 as [| e1 rest IH]; simpl; [reflexivity |].
  rewrite findSharedEdge_inner_spec.
  destruct (existsb (fun e2 => edgesMatch e1 e2) edges2); [reflexivity | exact IH].
Qed.

Lemma findSharedEdge_None (poly1 poly2 : Polygon) :
  findSharedEdge poly1 poly2 = None <-> shareEdge poly1 poly2 = false.
Proof.
  unfold findSharedEdge, shareEdge. rewrite findSharedEdge_outer_spec.
  generalize (getEdges poly1) as edges1. intros edges1.
  induction edges1 as [| e1 rest IH]; simpl; [tauto |].
  destruct (existsb (fun e2 => edgesMatch e1 e2) (getEdges poly2)); simpl;
    [split; discriminate | exact IH].
Qed.

Lemma shareEdge_true (poly1 poly2 : Polygon) :
  shareEdge poly1 poly2 = true <-> haveSharedEdge poly1 poly2.
Proof.
  unfold shareEdge, haveSharedEdge. rewrite existsb_exists. split.
  - intros [[a b] [H1 [[c d] [H2 Hm]]%existsb_exists]].
    exists a, b, c, d. repeat split; try assumption. now apply edgesMatch_true.
  - intros (a & b & c & d & H1 & H2 & Hm).
    exists (a, b). split; [assumption |].
    apply existsb_exists. exists (c, d). split; [assumption |].
    now apply edgesMatch_true.
Qed.

Lemma mergePolygons_None (poly1 poly2 : Polygon) :
  mergePolygons poly1 poly2 = None <-> findSharedEdge poly1 poly2 = None.
Proof.
  unfold mergePolygons. destruct (findSharedEdge poly1 poly2); split; congruence.
Qed.

(** C6: [mergePolygons] returns [null] if and only if no edge of polygon 1
    matches an edge of polygon 2 under [pointsEqual] in either direction,
    that is if and only if [shareEdge] is false. *)
Theorem mergePolygons_null_iff_no_shared_edge (poly1 poly2 : Polygon) :
  (mergePolygons poly1 poly2 = None <-> ~ haveSharedEdge poly1 poly2)
  /\ (mergePolygons poly1 poly2 = None <-> shareEdge poly1 poly2 = false).
Proof.
  assert (Hb : mergePolygons poly1 poly2 = None <-> shareEdge poly1 poly2 = false).
  { rewrite mergePolygons_None. apply findSharedEdge_None. }
  split; [| exact Hb].
  rewrite Hb, <- shareEdge_true. destruct (shareEdge poly1 poly2); split; congruence.
Qed.

(** ** C4: the adjacency relation is symmetric *)

Lemma edgesMatch_sym (e1 e2 : Point * Point) : edgesMatch e1 e2 = edgesMatch e2 e1.
Proof.
  unfold edgesMatch.
  rewrite (pointsEqual_sym (fst e2) (fst e1)), (pointsEqual_sym (snd e2) (snd e1)).
  rewrite (pointsEqual_sym (fst e2) (snd e1)), (pointsEqual_sym (snd e2) (fst e1)).
  f_equal. apply andb_comm.
Qed.

Lemma existsb_swap {A B : Type} (f : A -> B -> bool) (l1 : list A) (l2 : list B) :
  existsb (fun a => existsb (fun b => f a b) l2) l1
  = existsb (fun b => existsb (fun a => f a b) l1) l2.
Proof.
  apply eq_true_iff_eq. rewrite !existsb_exists. split.
  - intros [a [Ha [b [Hb Hf]]%existsb_exists]].
    exists b. split; [assumption |]. apply existsb_exists. now exists a.
  - intros [b [Hb [a [Ha Hf]]%existsb_exists]].
    exists a. split; [assumption |]. apply existsb_exists. now exists b.
Qed.

Lemma existsb_pointwise {A : Type} (f g : A -> bool) (l : list A) :
  (forall a, f a = g a) -> existsb f l = existsb g l.
Proof.
  intros Hfg. induction l as [| a rest IH]; simpl; [reflexivity |].
  now rewrite Hfg, IH.
Qed.

Lemma shareEdge_sym (tri1 tri2 : Polygon) : shareEdge tri1 tri2 = shareEdge tri2 tri1.
Proof.
  unfold shareEdge. rewrite existsb_swap.
  apply existsb_pointwise. intros e2.
  apply existsb_pointwise. intros e1. apply edgesMatch_sym.
Qed.

Lemma adjacent_sym (triangles : list Polygon) (i j : nat) :
  adjacent triangles i j = adjacent triangles j i.
Proof.
  unfold adjacent. rewrite (Nat.eqb_sym i j), (shareEdge_sym (triangleAt triangles i)).
  reflexivity.
Qed.

(** The inner loop appends to the row of [i] the indices that pass the test,
    in increasing order, and leaves the other rows alone. *)
Lemma adjacencyRow_spec (triangles : list Polygon) (i : nat) (js : list nat)
      (adjacencyMap : gmap nat (list nat)) (row : list nat) :
  adjacencyMap !! i = Some row ->
  adjacencyRow triangles i js adjacencyMap
  = <[i := row ++ List.filter (adjacent triangles i) js]> adjacencyMap.
Proof.
  revert adjacencyMap row.
  induction js as [| j rest IH]; intros adjacencyMap row Hrow; simpl.
  - rewrite app_nil_r. symmetry. now apply insert_id.
  - unfold adjacent at 1.
    destruct ((i =? j)%nat || negb (shareEdge (triangleAt triangles i) (triangleAt triangles j)));
      simpl.
    + now apply IH.
    + rewrite (IH _ (row ++ [j])).
      * rewrite <- app_assoc. simpl.
        apply map_eq. intros k.
        destruct (decide (i = k)) as [-> | Hne].
        -- now rewrite !lookup_insert_eq.
        -- rewrite !lookup_insert_ne by assumption. now apply lookup_alter_ne.
      * rewrite lookup_alter_eq, Hrow. reflexivity.
Qed.

Lemma adjacencyLoop_lookup (triangles : list Polygon) (idxs : list nat)
      (adjacencyMap : gmap nat (list nat)) (k : nat) :
  adjacencyLoop triangles idxs adjacencyMap !! k
  = if decide (k ∈ idxs)
    then Some (List.filter (adjacent triangles k) (seq 0 (length triangles)))
    else adjacencyMap !! k.
Proof.
  revert adjacencyMap.
  induction idxs as [| i rest IH]; intros adjacencyMap; cbn [adjacencyLoop].
  - rewrite decide_False by apply not_elem_of_nil. reflexivity.
  - rewrite IH.
    rewrite (adjacencyRow_spec _ _ _ _ []) by apply lookup_insert_eq.
    cbn [app]. rewrite insert_insert_eq.
    destruct (decide (k ∈ rest)) as [Hin | Hnin].
    + rewrite decide_True by (apply elem_of_cons; tauto). reflexivity.
    + destruct (decide (i = k)) as [-> | Hne].
      * rewrite lookup_insert_eq, decide_True by (apply elem_of_cons; tauto). reflexivity.
      * rewrite lookup_insert_ne by assumption.
        rewrite decide_False; [reflexivity |].
        intros [-> | Hin]%elem_of_cons; tauto.
Qed.

(** The adjacency map has one row per triangle index: the indices [j] other
    than [i] whose triangle shares an edge with triangle [i], in increasing
    order. *)
Lemma buildAdjacencyMap_lookup (triangles : list Polygon) (i : nat) :
  buildAdjacencyMap triangles !! i
  = if decide (i < length triangles)
    then Some (List.filter (adjacent triangles i) (seq 0 (length triangles)))
    else None.
Proof.
  unfold buildAdjacencyMap. rewrite adjacencyLoop_lookup.
  destruct (decide (i ∈ seq 0 (length triangles))) as [Hin | Hnin];
    destruct (decide (i < length triangles)) as [Hlt | Hge];
    try reflexivity; try apply lookup_empty.
  - apply elem_of_seq in Hin. lia.
  - exfalso. apply Hnin, elem_of_seq. lia.
Qed.

Lemma listsNeighbor_spec (triangles : list Polygon) (i j : nat) :
  listsNeighbor (buildAdjacencyMap triangles) i j <->
  i < length triangles /\ j < length triangles /\ adjacent triangles i j = true.
Proof.
  unfold listsNeighbor. rewrite buildAdjacencyMap_lookup.
  destruct (decide (i < length triangles)) as [Hlt | Hge].
  - split.
    + intros (row & [= <-] & [Hin Hadj]%filter_In). apply in_seq in Hin.
      repeat split; [assumption | lia | assumption].
    + intros (_ & Hj & Hadj). eexists. split; [reflexivity |].
      apply filter_In. split; [apply in_seq; lia | assumption].
  - split.
    + intros (row & Hrow & _). discriminate.
    + intros (Hi & _). contradiction.
Qed.

(** C4: the adjacency map built by [mergeTrianglesToConvexPolygons] lists
    [j] as a neighbour of [i] if and only if it lists [i] as a neighbour of
    [j], and [shareEdge] gives the same answer in both orders. *)
Theorem adjacency_symmetric (triangles : list Polygon) (i j : nat) (t1 t2 : Polygon) :
  (listsNeighbor (buildAdjacencyMap triangles) i j
   <-> listsNeighbor (buildAdjacencyMap triangles) j i)
  /\ shareEdge t1 t2 = shareEdge t2 t1.
Proof.
  split; [| apply shareEdge_sym].
  rewrite !listsNeighbor_spec, (adjacent_sym triangles i j). tauto.
Qed.

(** ** C8: the flattened input of the triangulator *)

Lemma coordsOf_app (poly1 poly2 : Polygon) :
  coordsOf (poly1 ++ poly2) = coordsOf poly1 ++ coordsOf poly2.
Proof. apply flat_map_app. Qed.

Lemma coordsOf_length (poly : Polygon) : length (coordsOf poly) = 2 * length poly.
Proof. induction poly as [| p rest IH]; simpl; [reflexivity | rewrite IH; lia]. Qed.

Lemma pushPoints_spec (vertices : list float) (poly : Polygon) :
  pushPoints vertices poly = vertices ++ coordsOf poly.
Proof.
  revert vertices. induction poly as [| p rest IH]; intros vertices; simpl.
  - now rewrite app_nil_r.
  - rewrite IH, <- app_assoc. reflexivity.
Qed.

Lemma pushObstacles_spec (obstacles : list Polygon) (vertices : list float)
      (holes : list nat) (vertexOffset : nat) :
  pushObstacles obstacles vertices holes vertexOffset
  = {| vertices := vertices ++ coordsOf (concat obstacles);
       holes := holes ++ holeStarts vertexOffset obstacles |}.
Proof.
  revert vertices holes vertexOffset.
  induction obstacles as [| obstacle rest IH]; intros vertices holes vertexOffset; simpl.
  - now rewrite !app_nil_r.
  - rewrite IH, pushPoints_spec, coordsOf_app, <- !app_assoc. reflexivity.
Qed.

Lemma holeStarts_length (vertexOffset : nat) (obstacles : list Polygon) :
  length (holeStarts vertexOffset obstacles) = length obstacles.
Proof.
  revert vertexOffset. induction obstacles as [| obstacle rest IH]; intros vertexOffset; simpl;
    [reflexivity | now rewrite IH].
Qed.

(** Each hole start is the number of vertices that come before the
    obstacle. *)
Lemma holeStarts_nth (vertexOffset : nat) (obstacles : list Polygon) (k : nat) :
  k < length obstacles ->
  nth k (holeStarts vertexOffset obstacles) 0
  = vertexOffset + length (concat (firstn k obstacles)).
Proof.
  revert vertexOffset k.
  induction obstacles as [| obstacle rest IH]; intros vertexOffset k Hk; simpl in *; [lia |].
  destruct k as [| k]; simpl; [lia |].
  rewrite IH by lia. rewrite length_app. lia.
Qed.

Lemma nth_middle_split {A : Type} (l : list A) (k : nat) (d : A) :
  k < length l -> l = firstn k l ++ nth k l d :: skipn (S k) l.
Proof.
  revert k. induction l as [| a rest IH]; intros k Hk; simpl in *; [lia |].
  destruct k as [| k]; simpl; [reflexivity |].
  f_equal. apply IH. lia.
Qed.

(** In the buffer, the coordinates of an obstacle start at twice the number
    of vertices that come before it. *)
Lemma coordsOf_slice (before : Polygon) (obstacle : Polygon) (after : Polygon) :
  firstn (2 * length obstacle)
         (skipn (2 * length before) (coordsOf (before ++ obstacle ++ after)))
  = coordsOf obstacle.
Proof.
  rewrite !coordsOf_app, <- !coordsOf_length.
  rewrite skipn_app, Nat.sub_diag, skipn_all, skipn_O.
  cbn [app].
  rewrite firstn_app, Nat.sub_diag, firstn_all, firstn_O.
  apply app_nil_r.
Qed.

(** C8: for a 4-point bounding box, [prepareEarcutInput] returns the
    interleaved [x, y] coordinates of the bounding box followed by those of
    every obstacle in the given order, and one hole start per obstacle: 4
    plus the number of vertices of the earlier obstacles.  The hole start
    counts vertices: the coordinates of the obstacle begin at twice that
    position of the buffer. *)
Theorem prepareEarcutInput_spec (boundingBox : Polygon) (obstacles : list Polygon) :
  length boundingBox = 4 ->
  let input := prepareEarcutInput boundingBox obstacles in
  vertices input = coordsOf (boundingBox ++ concat obstacles)
  /\ length (holes input) = length obstacles
  /\ forall k, k < length obstacles ->
       nth k (holes input) 0 = 4 + length (concat (firstn k obstacles))
       /\ firstn (2 * length (nth k obstacles []))
                 (skipn (2 * nth k (holes input) 0) (vertices input))
          = coordsOf (nth k obstacles []).
Proof.
  intros Hbb input. subst input. unfold prepareEarcutInput.
  rewrite pushObstacles_spec, pushPoints_spec. cbn [vertices holes app].
  rewrite <- coordsOf_app, Hbb.
  split; [reflexivity |]. split; [apply holeStarts_length |].
  intros k Hk. rewrite holeStarts_nth by exact Hk.
  split; [reflexivity |].
  pose proof (nth_middle_split obstacles k [] Hk) as Hsplit.
  set (pre := firstn k obstacles) in *.
  set (obstacle := nth k obstacles []) in *.
  replace (concat obstacles)
    with (concat pre ++ obstacle ++ concat (skipn (S k) obstacles))
    by (now rewrite <- concat_cons, <- concat_app, <- Hsplit).
  rewrite app_assoc.
  replace (4 + length (concat pre)) with (length (boundingBox ++ concat pre))
    by (rewrite length_app; lia).
  apply coordsOf_slice.
Qed.

(** The input built for [sampleBox] with two 3-point obstacles. *)
Lemma prepareEarcutInput_spec_witness :
  length sampleBox = 4
  /\ (let input := prepareEarcutInput sampleBox [triangleABC; diagonalTriangle] in
      vertices input = coordsOf (sampleBox ++ concat [triangleABC; diagonalTriangle])
      /\ length (holes input) = length [triangleABC; diagonalTriangle]
      /\ forall k, k < length [triangleABC; diagonalTriangle] ->
           nth k (holes input) 0
           = 4 + length (concat (firstn k [triangleABC; diagonalTriangle]))
           /\ firstn (2 * length (nth k [triangleABC; diagonalTriangle] []))
                     (skipn (2 * nth k (holes input) 0) (vertices input))
              = coordsOf (nth k [triangleABC; diagonalTriangle] [])).
Proof.
  split; [reflexivity |].
  exact (prepareEarcutInput_spec sampleBox [triangleABC; diagonalTriangle] eq_refl).
Defined.

(** ** C3: input validation *)

Lemma validObstacle_dec (obstacle : Polygon) :
  (length obstacle <? 3)%nat = false /\ isConvex obstacle = true <-> validObstacle obstacle.
Proof. unfold validObstacle. rewrite Nat.ltb_ge. reflexivity. Qed.

Lemma validateObstacles_spec (obstacles : list Polygon) (i : nat) :
  match validateObstacles obstacles i with
  | Ok _ => Forall validObstacle obstacles
  | Throw e =>
      exists before obstacle after,
        obstacles = before ++ obstacle :: after
        /\ Forall validObstacle before
        /\ ~ validObstacle obstacle
        /\ e = obstacleError obstacle (i + length before)
  end.
Proof.
  revert i. induction obstacles as [| obstacle rest IH]; intros i; simpl.
  - constructor.
  - destruct (length obstacle <? 3)%nat eqn:Hlen.
    + exists [], obstacle, rest. simpl. repeat split; [constructor | |].
      * intros [Hge _]. apply Nat.ltb_lt in Hlen. lia.
      * unfold obstacleError. rewrite Hlen, Nat.add_0_r. reflexivity.
    + destruct (isConvex obstacle) eqn:Hconvex; simpl.
      * specialize (IH (i + 1)).
        destruct (validateObstacles rest (i + 1)) as [u | e].
        -- constructor; [now apply validObstacle_dec | exact IH].
        -- destruct IH as (before & bad & after & -> & Hbefore & Hbad & ->).
           exists (obstacle :: before), bad, after. simpl.
           repeat split; try assumption.
           ++ constructor; [now apply validObstacle_dec | exact Hbefore].
           ++ f_equal. lia.
      * exists [], obstacle, rest. simpl. repeat split; [constructor | |].
        -- intros [_ Hc]. congruence.
        -- unfold obstacleError. rewrite Hlen, Nat.add_0_r. reflexivity.
Qed.

Lemma validateInput_Ok (boundingBox : Polygon) (obstacles : list Polygon) (u : unit) :
  validateInput boundingBox obstacles = Ok u <->
  length boundingBox = 4 /\ Forall validObstacle obstacles.
Proof.
  unfold validateInput.
  destruct (length boundingBox =? 4)%nat eqn:Hbb; simpl.
  - apply Nat.eqb_eq in Hbb.
    pose proof (validateObstacles_spec obstacles 0) as Hspec.
    destruct (validateObstacles obstacles 0) as [[] | e].
    + destruct u. tauto.
    + split; [discriminate |]. intros [_ Hall].
      destruct Hspec as (before & bad & after & -> & _ & Hbad & _).
      apply Forall_app in Hall as [_ Hall]. now inversion Hall.
  - apply Nat.eqb_neq in Hbb. split; [discriminate | tauto].
Qed.

Lemma validateInput_Throw (boundingBox : Polygon) (obstacles : list Polygon) (e : Error) :
  validateInput boundingBox obstacles = Throw e <->
  (length boundingBox <> 4 /\ e = BoundingBoxError)
  \/ (length boundingBox = 4 /\ firstInvalidObstacle obstacles e).
Proof.
  unfold validateInput, firstInvalidObstacle.
  destruct (length boundingBox =? 4)%nat eqn:Hbb; simpl.
  - apply Nat.eqb_eq in Hbb.
    pose proof (validateObstacles_spec obstacles 0) as Hspec.
    destruct (validateObstacles obstacles 0) as [[] | e'].
    + split; [discriminate |].
      intros [[Hne _] | [_ (before & bad & after & -> & _ & Hbad & _)]]; [contradiction |].
      apply Forall_app in Hspec as [_ Hall]. now inversion Hall.
    + destruct Hspec as (before & bad & after & Hobs & Hbefore & Hbad & He').
      simpl in He'. split.
      * intros [= <-]. right. split; [assumption |].
        now exists before, bad, after.
      * intros [[Hne _] | [_ (before2 & bad2 & after2 & Hobs2 & Hbefore2 & Hbad2 & ->)]];
          [contradiction |].
        subst e'. f_equal.
        assert (Hsame : before = before2 /\ bad = bad2).
        { subst obstacles. clear -Hobs2 Hbefore Hbad Hbefore2 Hbad2.
          revert before2 Hobs2 Hbefore2.
          induction before as [| o before IH]; intros before2 Hobs2 Hbefore2.
          - destruct before2 as [| o2 before2]; simpl in *.
            + now inversion Hobs2.
            + inversion Hobs2; subst. now inversion Hbefore2.
          - destruct before2 as [| o2 before2]; simpl in *.
            + inversion Hobs2; subst. now inversion Hbefore.
            + inversion Hobs2; subst. inversion Hbefore; subst. inversion Hbefore2; subst.
              destruct (IH ltac:(assumption) before2 ltac:(assumption) ltac:(assumption))
                as [-> ->].
              tauto. }
        destruct Hsame as [-> ->]. reflexivity.
  - apply Nat.eqb_neq in Hbb. split.
    + intros [= <-]. now left.
    + intros [[_ ->] | [Heq _]]; [reflexivity | contradiction].
Qed.

Lemma not_validObstacle (obstacle : Polygon) :
  ~ validObstacle obstacle <-> length obstacle < 3 \/ isConvex obstacle = false.
Proof.
  unfold validObstacle. destruct (isConvex obstacle); split.
  - intros Hn. left. lia.
  - intros [Hlt | Hc] [Hge _]; [lia | discriminate].
  - intros _. now right.
  - intros _ [_ Hc]. discriminate.
Qed.

Lemma validObstacle_decidable (obstacle : Polygon) :
  validObstacle obstacle \/ ~ validObstacle obstacle.
Proof.
  unfold validObstacle. destruct (isConvex obstacle);
    destruct (le_lt_dec 3 (length obstacle)); intuition (try lia; try discriminate).
Qed.

Lemma validateInput_cases (boundingBox : Polygon) (obstacles : list Polygon) :
  validateInput boundingBox obstacles = Ok tt
  \/ exists e, validateInput boundingBox obstacles = Throw e.
Proof. destruct (validateInput boundingBox obstacles) as [[] | e]; eauto. Qed.

(** C3: [validateInput] throws if and only if the bounding box does not have
    exactly 4 points or some obstacle has fewer than 3 points or fails
    [isConvex]; the error thrown for an obstacle carries the position,
    counted from 1, of the first offending obstacle of the list; and
    [decomposeWalkableArea] then throws that same error whatever the
    triangulator would do, so no result is produced. *)
Theorem validateInput_raises_iff (boundingBox : Polygon) (obstacles : list Polygon) :
  ((exists e, validateInput boundingBox obstacles = Throw e) <->
   length boundingBox <> 4
   \/ Exists (fun obstacle => length obstacle < 3 \/ isConvex obstacle = false) obstacles)
  /\ (forall e, validateInput boundingBox obstacles = Throw e <->
        (length boundingBox <> 4 /\ e = BoundingBoxError)
        \/ (length boundingBox = 4 /\ firstInvalidObstacle obstacles e))
  /\ (forall earcut e, validateInput boundingBox obstacles = Throw e ->
        decomposeWalkableArea earcut boundingBox obstacles = Throw e).
Proof.
  split; [| split].
  - assert (Hex : Exists (fun obstacle => length obstacle < 3 \/ isConvex obstacle = false)
                         obstacles <-> ~ Forall validObstacle obstacles).
    { rewrite <- (Exists_Forall_neg validObstacle obstacles)
        by (intros o; apply validObstacle_decidable).
      rewrite !Exists_exists.
      split; intros (o & Hin & Ho); exists o; (split; [exact Hin |]);
        now apply not_validObstacle. }
    rewrite Hex.
    pose proof (validateInput_Ok boundingBox obstacles tt) as Hok.
    destruct (validateInput_cases boundingBox obstacles) as [Hv | [e Hv]].
    + rewrite Hv. split; [intros [e He]; discriminate |].
      apply Hok in Hv as [Hbb Hall]. tauto.
    + split; [| intros _; now exists e].
      intros _. destruct (Nat.eq_dec (length boundingBox) 4) as [Hbb | Hbb]; [| now left].
      right. intros Hall. rewrite (proj2 Hok) in Hv by tauto. discriminate.
  - intros e. apply validateInput_Throw.
  - intros earcut e Hv. unfold decomposeWalkableArea. rewrite Hv. reflexivity.
Qed.

(** ** C5: the splice computed by [mergePolygons] *)

(** C5, as stated, fails when the two polygons run through the shared edge
    in the same direction: the vertex spliced in is then the second endpoint
    of the shared edge, which ends up twice in the result, and the remaining
    vertex (0,-1) of polygon 2 is left out. *)
Lemma mergePolygons_same_direction :
  findSharedEdge triangleABC triangleABD = Some (pt 0 0, pt 1 0)
  /\ List.filter (fun p => pointsEqual p (pt 0 0)) triangleABC = [pt 0 0]
  /\ mergePolygons triangleABC triangleABD = Some [pt 0 0; pt 1 0; pt 1 0; pt 1 1]
  /\ List.filter (fun p => pointsEqual p (pt 1 0)) [pt 0 0; pt 1 0; pt 1 0; pt 1 1]
     = [pt 1 0; pt 1 0]
  /\ ~ In (pt 0 (-1)) [pt 0 0; pt 1 0; pt 1 0; pt 1 1].
Proof.
  repeat split; try (vm_compute; reflexivity).
  intros Hin. repeat (destruct Hin as [Heq | Hin]; [discriminate Heq |]).
  exact Hin.
Qed.

Lemma findIndex_first (test : Point -> bool) (before after : Polygon) (d : Point) :
  Forall (fun p => test p = false) before ->
  test d = true ->
  findIndex test (before ++ d :: after) = Z.of_nat (length before).
Proof.
  intros Hbefore Hd. induction Hbefore as [| p rest Hp Hrest IH]; simpl.
  - now rewrite Hd.
  - rewrite Hp, IH.
    destruct (Z.ltb_spec (Z.of_nat (length rest)) 0); lia.
Qed.

(** Reading a polygon cyclically from just past position [length before]. *)
Lemma at_index_cyclic (before after : Polygon) (d : Point) (t : nat) :
  t < length before + length after ->
  at_index (before ++ d :: after)
           ((length before + 1 + t) mod length (before ++ d :: after))
  = nth t (after ++ before) undefinedPoint.
Proof.
  intros Ht. unfold at_index.
  rewrite length_app. cbn [length].
  destruct (le_lt_dec (length after) t) as [Hge | Hlt].
  - replace (length before + 1 + t)
      with ((t - length after) + 1 * (length before + S (length after))) by lia.
    rewrite Nat.Div0.mod_add, Nat.mod_small by lia.
    rewrite (app_nth2 after) by lia.
    now rewrite app_nth1 by lia.
  - rewrite Nat.mod_small by lia.
    rewrite app_nth2 by lia.
    replace (length before + 1 + t - length before) with (S t) by lia.
    cbn [nth]. now rewrite app_nth1 by lia.
Qed.

(** The innermost loop pushes [count] vertices of polygon 2, read cyclically
    from [start]. *)
Lemma spliceLoop_spec (poly2 : Polygon) (count : nat) (newPoly : Polygon) (start t0 : nat) :
  fst (spliceLoop poly2 count newPoly ((start + t0) mod length poly2))
  = newPoly ++ map (fun t => at_index poly2 ((start + t) mod length poly2)) (seq t0 count).
Proof.
  revert newPoly t0. induction count as [| count IH]; intros newPoly t0; cbn [spliceLoop seq map].
  - now rewrite app_nil_r.
  - rewrite Nat.Div0.add_mod_idemp_l.
    replace (start + t0 + 1) with (start + S t0) by lia.
    rewrite IH, <- app_assoc. reflexivity.
Qed.

Lemma mergeLoop_no_match (edgeStart : Point) (poly2 rest1 newPoly : Polygon) (index : nat) :
  Forall (fun p => pointsEqual p edgeStart = false) rest1 ->
  mergeLoop edgeStart poly2 rest1 newPoly index = newPoly ++ rest1.
Proof.
  intros Hrest. revert newPoly.
  induction Hrest as [| p rest Hp Hrest IH]; intros newPoly; cbn [mergeLoop].
  - now rewrite app_nil_r.
  - rewrite Hp. cbn [negb]. rewrite IH, <- app_assoc. reflexivity.
Qed.

Lemma map_nth_seq {A : Type} (l : list A) (d : A) (n : nat) :
  map (fun t => nth t l d) (seq 0 n) = firstn n (l ++ repeat d (n - length l)).
Proof.
  revert l. induction n as [| n IH]; intros l; [reflexivity |].
  destruct l as [| a rest].
  - cbn [length Nat.sub app repeat seq map firstn nth]. f_equal.
    rewrite <- seq_shift, map_map.
    specialize (IH []). cbn [length app] in IH. rewrite Nat.sub_0_r in IH.
    rewrite <- IH. apply map_ext. intros t. now destruct t.
  - cbn [length Nat.sub app seq map firstn nth]. f_equal.
    rewrite <- seq_shift, map_map. apply IH.
Qed.

(** The splice when the shared endpoint [a] is met once in polygon 1 and its
    first match [d] in polygon 2 is preceded, cyclically, by [c]. *)
Lemma mergePolygons_splice_at
        (before1 after1 before2 after2 inserted : Polygon) (a b c d : Point) :
  findSharedEdge (before1 ++ a :: after1) (before2 ++ d :: after2) = Some (a, b) ->
  Forall (fun p => pointsEqual p a = false) (before1 ++ after1) ->
  pointsEqual d a = true ->
  Forall (fun p => pointsEqual p a = false) before2 ->
  after2 ++ before2 = inserted ++ [c] ->
  pointsEqual c b = true ->
  mergePolygons (before1 ++ a :: after1) (before2 ++ d :: after2)
  = Some (before1 ++ a :: inserted ++ after1)
  /\ length (before1 ++ a :: inserted ++ after1)
     = length (before1 ++ a :: after1) + length (before2 ++ d :: after2) - 2.
Proof.
  intros Hshared Hpoly1 Hda Hbefore2 Hcycle Hcb.
  apply Forall_app in Hpoly1 as [Hbefore1 Hafter1].
  assert (Hlen : length after2 + length before2 = length inserted + 1).
  { rewrite <- length_app, Hcycle, length_app. reflexivity. }
  split.
  - unfold mergePolygons. rewrite Hshared. cbn [fst].
    rewrite (findIndex_first _ before2 after2 d Hbefore2 Hda).
    set (poly2 := before2 ++ d :: after2).
    assert (Hn2 : length poly2 = length before2 + S (length after2)).
    { unfold poly2. rewrite length_app. reflexivity. }
    assert (Hindex : Z.to_nat (Z.rem (Z.of_nat (length before2) + 1) (Z.of_nat (length poly2)))
                     = (length before2 + 1 + 0) mod length poly2).
    { rewrite Z.rem_mod_nonneg by lia.
      replace (Z.of_nat (length before2) + 1)%Z with (Z.of_nat (length before2 + 1 + 0)) by lia.
      rewrite <- Nat2Z.inj_mod. apply Nat2Z.id. }
    rewrite Hindex. f_equal.
    (* the vertices before [a] *)
    assert (Hwalk : forall rest1 newPoly index,
               Forall (fun p => pointsEqual p a = false) rest1 ->
               mergeLoop a poly2 (rest1 ++ a :: after1) newPoly index
               = mergeLoop a poly2 (a :: after1) (newPoly ++ rest1) index).
    { intros rest1 newPoly index Hrest. revert newPoly.
      induction Hrest as [| p rest Hp Hrest IH]; intros newPoly; cbn [app].
      - now rewrite app_nil_r.
      - cbn [mergeLoop]. rewrite Hp. cbn [negb]. rewrite IH, <- app_assoc. reflexivity. }
    rewrite Hwalk by exact Hbefore1. cbn [app].
    (* the vertex [a] itself, then the splice *)
    cbn [mergeLoop]. rewrite (pointsEqual_refl_r d a Hda). cbn [negb].
    pose proof (spliceLoop_spec poly2 (length poly2 - 2) (before1 ++ [a])
                                (length before2 + 1) 0) as Hsplice.
    destruct (spliceLoop poly2 (length poly2 - 2) (before1 ++ [a])
                         ((length before2 + 1 + 0) mod length poly2)) as [spliced index'].
    cbn [fst] in Hsplice. subst spliced.
    rewrite mergeLoop_no_match by exact Hafter1.
    rewrite <- !app_assoc. cbn [app]. do 2 f_equal. f_equal.
    (* the vertices spliced in *)
    rewrite (map_ext_in _ (fun t => nth t (after2 ++ before2) undefinedPoint)).
    + rewrite map_nth_seq, Hcycle, Hn2, !length_app. cbn [length].
      replace (length before2 + S (length after2) - 2 - (length inserted + 1)) with 0 by lia.
      cbn [repeat]. rewrite app_nil_r.
      replace (length before2 + S (length after2) - 2) with (length inserted + 0) by lia.
      rewrite firstn_app_2. cbn [firstn]. apply app_nil_r.
    + intros t Ht%in_seq. apply (at_index_cyclic before2 after2 d t). lia.
  - rewrite !length_app. cbn [length]. rewrite !length_app. lia.
Qed.

Lemma spliceLoop_length (poly2 : Polygon) (count : nat) (newPoly : Polygon) (index : nat) :
  length (fst (spliceLoop poly2 count newPoly index)) = length newPoly + count.
Proof.
  revert newPoly index. induction count as [| count IH]; intros newPoly index; cbn [spliceLoop].
  - cbn [fst]. lia.
  - rewrite IH, length_app. cbn [length]. lia.
Qed.

(** Every vertex of polygon 1 identified with [edgeStart] adds
    [|poly2| - 2] vertices. *)
Lemma mergeLoop_length (edgeStart : Point) (poly2 rest1 newPoly : Polygon) (index : nat) :
  length (mergeLoop edgeStart poly2 rest1 newPoly index)
  = length newPoly + length rest1
    + (length poly2 - 2) * length (List.filter (fun p => pointsEqual p edgeStart) rest1).
Proof.
  revert newPoly index.
  induction rest1 as [| p rest IH]; intros newPoly index; cbn [mergeLoop List.filter length].
  - lia.
  - destruct (pointsEqual p edgeStart); cbn [negb].
    + pose proof (spliceLoop_length poly2 (length poly2 - 2) (newPoly ++ [p]) index) as Hlen.
      destruct (spliceLoop poly2 (length poly2 - 2) (newPoly ++ [p]) index)
        as [spliced index'].
      cbn [fst] in Hlen. rewrite IH, Hlen, length_app. cbn [length]. lia.
    + rewrite IH, length_app. cbn [length]. lia.
Qed.

(** C5 (amended): let [findSharedEdge] return the edge [(a, b)].  When [a]
    is the only vertex of polygon 1 that [pointsEqual] identifies with [a]
    and polygon 2 has at least 2 vertices, the result of [mergePolygons] has
    [|poly1| + |poly2| - 2] vertices.  When moreover the first vertex [d] of
    polygon 2 identified with [a] is preceded in polygon 2's cyclic order by
    [c], the vertex identified with [b] (the two polygons run through the
    shared edge in opposite directions), the result is polygon 1's vertices
    in order with, immediately after [a], the vertices of polygon 2 other
    than [d] and [c] in polygon 2's cyclic order starting just past [d]. *)
Theorem mergePolygons_splice (poly1 poly2 : Polygon) (a b : Point) :
  findSharedEdge poly1 poly2 = Some (a, b) ->
  (length (List.filter (fun p => pointsEqual p a) poly1) = 1 ->
   2 <= length poly2 ->
   exists merged, mergePolygons poly1 poly2 = Some merged
                  /\ length merged = length poly1 + length poly2 - 2)
  /\ (forall before1 after1 before2 after2 inserted c d,
        poly1 = before1 ++ a :: after1 ->
        Forall (fun p => pointsEqual p a = false) (before1 ++ after1) ->
        poly2 = before2 ++ d :: after2 ->
        pointsEqual d a = true ->
        Forall (fun p => pointsEqual p a = false) before2 ->
        after2 ++ before2 = inserted ++ [c] ->
        pointsEqual c b = true ->
        mergePolygons poly1 poly2 = Some (before1 ++ a :: inserted ++ after1)).
Proof.
  intros Hshared. split.
  - intros Honce Hlen2. unfold mergePolygons. rewrite Hshared. cbn [fst].
    eexists. split; [reflexivity |].
    rewrite mergeLoop_length, Honce. cbn [length]. lia.
  - intros before1 after1 before2 after2 inserted c d -> Hpoly1 -> Hda Hbefore2 Hcycle Hcb.
    now apply (mergePolygons_splice_at before1 after1 before2 after2 inserted a b c d).
Qed.

(** The splice of [triangleABC] with [triangleBAD]: the vertex (0,-1) is
    inserted after (0,0). *)
Lemma mergePolygons_splice_witness :
  findSharedEdge triangleABC triangleBAD = Some (pt 0 0, pt 1 0)
  /\ mergePolygons triangleABC triangleBAD = Some [pt 0 0; pt 0 (-1); pt 1 0; pt 1 1]
  /\ (length (List.filter (fun p => pointsEqual p (pt 0 0)) triangleABC) = 1 ->
      2 <= length triangleBAD ->
      exists merged, mergePolygons triangleABC triangleBAD = Some merged
                     /\ length merged = length triangleABC + length triangleBAD - 2).
Proof.
  assert (Hshared : findSharedEdge triangleABC triangleBAD = Some (pt 0 0, pt 1 0))
    by (vm_compute; reflexivity).
  destruct (mergePolygons_splice triangleABC triangleBAD (pt 0 0) (pt 1 0) Hshared)
    as [Hlength Hsplice].
  split; [exact Hshared |]. split; [| exact Hlength].
  apply (Hsplice [] [pt 1 0; pt 1 1] [pt 1 0] [pt 0 (-1)] [pt 0 (-1)] (pt 1 0) (pt 0 0));
    try reflexivity; repeat constructor.
Defined.

(** ** C10: polygons with exactly 3 points *)

(** C10, as stated, fails: a 3-point polygon with a [NaN] coordinate does
    not pass [isConvex], and neither do the three points (0,0), (0.1,0.3),
    (0.5,1.5), whose cross products come out, with rounding, as 0, [-2^-53]
    and [2^-55]; [validateInput] rejects such an obstacle. *)
Lemma three_points_not_convex :
  (length nanTriangle = 3 /\ isConvex nanTriangle = false)
  /\ (length collinearTriangle = 3
      /\ map (crossAt collinearTriangle) [0; 1; 2] = [0; -0x1p-53; 0x1p-55]%float
      /\ isConvex collinearTriangle = false
      /\ validateInput sampleBox [collinearTriangle] = Throw (ObstacleConvexError 1)).
Proof. repeat split; vm_compute; reflexivity. Qed.

Lemma validateInput_one_triangle (boundingBox : Polygon) (a b c : Point) :
  length boundingBox = 4 -> isConvex [a; b; c] = true ->
  validateInput boundingBox [[a; b; c]] = Ok tt.
Proof.
  intros Hbb Hconvex. unfold validateInput. rewrite Hbb.
  cbn [Nat.eqb negb validateObstacles length Nat.ltb Nat.leb].
  rewrite Hconvex. reflexivity.
Qed.

(** C10 (amended): every polygon with exactly 3 points whose coordinates are
    integers of absolute value below [2^25] passes [isConvex], degenerate
    triangles with collinear or coincident vertices included: the three cross
    products are computed exactly and are one and the same integer.  So
    does every polygon whose 3 vertices are one and the same point with
    finite coordinates.  [validateInput] accepts such polygons as
    obstacles. *)
Theorem three_point_polygons_pass (a b c p : Point) (boundingBox : Polygon) :
  length boundingBox = 4 ->
  (gridPoint a -> gridPoint b -> gridPoint c ->
   isConvex [a; b; c] = true /\ validateInput boundingBox [[a; b; c]] = Ok tt)
  /\ (finitePoint p = true ->
      isConvex [p; p; p] = true /\ validateInput boundingBox [[p; p; p]] = Ok tt).
Proof.
  intros Hbb. split.
  - intros Ha Hb Hc.
    pose proof (isConvex_grid_triangle a b c Ha Hb Hc) as Hconvex.
    split; [exact Hconvex | now apply validateInput_one_triangle].
  - intros Hp.
    pose proof (isConvex_coincident p Hp) as Hconvex.
    split; [exact Hconvex | now apply validateInput_one_triangle].
Qed.

(** A grid point from its two integer coordinates, with the bounds checked
    by computation. *)
Lemma gridPoint_small (zx zy : Z) (p : Point) :
  isInt (x p) zx -> isInt (y p) zy ->
  (Z.abs zx <? 2 ^ 25)%Z = true -> (Z.abs zy <? 2 ^ 25)%Z = true -> gridPoint p.
Proof.
  intros Hx Hy Bx%Z.ltb_lt By%Z.ltb_lt. now exists zx, zy.
Qed.

(** The collinear points (0,0), (1,1), (2,2) make an accepted obstacle, and
    so does the point (0.1,0.3) taken three times. *)
Lemma three_point_polygons_pass_witness :
  (length sampleBox = 4 /\ gridPoint (pt 0 0) /\ gridPoint (pt 1 1) /\ gridPoint (pt 2 2)
   /\ finitePoint (pt 0.1 0.3) = true)
  /\ (isConvex [pt 0 0; pt 1 1; pt 2 2] = true
      /\ validateInput sampleBox [[pt 0 0; pt 1 1; pt 2 2]] = Ok tt)
  /\ (isConvex [pt 0.1 0.3; pt 0.1 0.3; pt 0.1 0.3] = true
      /\ validateInput sampleBox [[pt 0.1 0.3; pt 0.1 0.3; pt 0.1 0.3]] = Ok tt).
Proof.
  assert (H0 : gridPoint (pt 0 0)).
  { apply (gridPoint_small 0 0); vm_compute; try reflexivity. }
  assert (H1 : gridPoint (pt 1 1)).
  { apply (gridPoint_small 1 1); vm_compute; try reflexivity; (split; [discriminate | reflexivity]). }
  assert (H2 : gridPoint (pt 2 2)).
  { apply (gridPoint_small 2 2); vm_compute; try reflexivity; (split; [discriminate | reflexivity]). }
  assert (Hp : finitePoint (pt 0.1 0.3) = true) by reflexivity.
  destruct (three_point_polygons_pass (pt 0 0) (pt 1 1) (pt 2 2) (pt 0.1 0.3) sampleBox eq_refl)
    as [Hgrid Hcoincident].
  split; [repeat split; assumption |].
  split; [now apply Hgrid | now apply Hcoincident].
Defined.

(** ** C1: convexity of the polygons returned *)

(** C1, as stated, fails: the three cross products of a triangle are
    computed with rounding, and for the points (0,0), (0.1,0.3), (0.5,1.5)
    they come out nonzero with different signs, so that the triangle, which
    is returned as it is, does not pass [isConvex]; the same happens to a
    triangle with a [NaN] coordinate. *)
Lemma merged_polygon_not_convex :
  (length collinearTriangle = 3
   /\ mergeTrianglesToConvexPolygons [collinearTriangle] = [collinearTriangle]
   /\ isConvex collinearTriangle = false)
  /\ (length nanTriangle = 3
      /\ mergeTrianglesToConvexPolygons [nanTriangle] = [nanTriangle]
      /\ isConvex nanTriangle = false).
Proof. repeat split; vm_compute; reflexivity. Qed.

Lemma mergeNeighbors_convexOrInput (triangles : list Polygon) (neighbors : list nat)
      (mergedPoly : Polygon) (visited : gset nat) :
  convexOrInput triangles mergedPoly ->
  convexOrInput triangles (fst (mergeNeighbors triangles neighbors mergedPoly visited)).
Proof.
  revert mergedPoly visited.
  induction neighbors as [| neighborIdx rest IH]; intros mergedPoly visited Hmerged;
    cbn [mergeNeighbors]; [exact Hmerged |].
  destruct (decide (neighborIdx ∈ visited)); [now apply IH |].
  destruct (mergePolygons mergedPoly (triangleAt triangles neighborIdx)) as [candidate |];
    [| now apply IH].
  destruct (isConvex candidate) eqn:Hconvex; [| now apply IH].
  apply IH. now left.
Qed.

Lemma mergeLoopTriangles_convexOrInput (triangles : list Polygon)
      (adjacencyMap : gmap nat (list nat)) (idxs : list nat) (visited : gset nat)
      (result : list Polygon) :
  Forall (fun i => i < length triangles) idxs ->
  Forall (convexOrInput triangles) result ->
  Forall (convexOrInput triangles)
         (mergeLoopTriangles triangles adjacencyMap idxs visited result).
Proof.
  revert visited result.
  induction idxs as [| i rest IH]; intros visited result Hidxs Hresult;
    cbn [mergeLoopTriangles]; [exact Hresult |].
  inversion Hidxs as [| ? ? Hi Hrest]; subst.
  destruct (decide (i ∈ visited)); [now apply IH |].
  pose proof (mergeNeighbors_convexOrInput triangles (default [] (adjacencyMap !! i))
                (triangleAt triangles i) ({[i]} ∪ visited)) as Hmerged.
  destruct (mergeNeighbors triangles (default [] (adjacencyMap !! i))
              (triangleAt triangles i) ({[i]} ∪ visited)) as [mergedPoly visited'].
  apply IH; [exact Hrest |].
  apply Forall_app. split; [exact Hresult |].
  constructor; [| constructor].
  apply Hmerged. right. now apply nth_In.
Qed.

Lemma mergeTriangles_convexOrInput (triangles : list Polygon) :
  Forall (convexOrInput triangles) (mergeTrianglesToConvexPolygons triangles).
Proof.
  unfold mergeTrianglesToConvexPolygons.
  apply mergeLoopTriangles_convexOrInput; [| constructor].
  apply List.Forall_forall. intros i Hi%in_seq. lia.
Qed.

Lemma trianglesOf_three (vertices : list float) (indices : list nat) :
  Forall (fun tri => length tri = 3) (trianglesOf vertices indices).
Proof.
  assert (H : forall n indices, length indices <= n ->
                Forall (fun tri => length tri = 3) (trianglesOf vertices indices)).
  { clear indices. induction n as [| n IH]; intros indices Hlen.
    - destruct indices; [constructor | simpl in Hlen; lia].
    - destruct indices as [| i0 [| i1 [| i2 rest]]]; simpl;
        repeat (constructor; try reflexivity).
      apply IH. simpl in Hlen. lia. }
  now apply (H (length indices)).
Qed.

(** C1 (amended): every polygon returned by
    [mergeTrianglesToConvexPolygons] passes [isConvex] or is one of the
    input triangles, returned unmerged; so when every input triangle passes
    [isConvex], as do all triangles whose vertices have integer coordinates
    of absolute value below [2^25], every returned polygon passes
    [isConvex].  For the pipeline: every polygon returned by
    [decomposeWalkableArea] passes [isConvex] or is a 3-point triangle of
    the triangulation. *)
Theorem merged_polygons_convex (triangles : list Polygon) :
  Forall (fun poly => isConvex poly = true \/ In poly triangles)
         (mergeTrianglesToConvexPolygons triangles)
  /\ (Forall (fun tri => isConvex tri = true) triangles ->
      Forall (fun poly => isConvex poly = true) (mergeTrianglesToConvexPolygons triangles))
  /\ (Forall gridTriangle triangles ->
      Forall (fun poly => isConvex poly = true) (mergeTrianglesToConvexPolygons triangles))
  /\ (forall earcut boundingBox obstacles polygons,
        decomposeWalkableArea earcut boundingBox obstacles = Ok polygons ->
        Forall (fun poly => isConvex poly = true \/ length poly = 3) polygons).
Proof.
  assert (Hconvex : Forall (fun tri => isConvex tri = true) triangles ->
                    Forall (fun poly => isConvex poly = true)
                           (mergeTrianglesToConvexPolygons triangles)).
  { intros Hin. eapply List.Forall_impl; [| apply mergeTriangles_convexOrInput].
    intros poly [Hc | Hpoly]; [exact Hc |].
    rewrite List.Forall_forall in Hin. now apply Hin. }
  split; [apply mergeTriangles_convexOrInput |]. split; [exact Hconvex |]. split.
  - intros Hgrid. apply Hconvex.
    eapply List.Forall_impl; [| exact Hgrid].
    intros tri (a & b & c & -> & Ha & Hb & Hc). now apply isConvex_grid_triangle.
  - intros earcut boundingBox obstacles polygons.
    unfold decomposeWalkableArea, triangulateWithEarcut.
    destruct (validateInput boundingBox obstacles) as [u | e]; [| discriminate].
    cbn [bindResult].
    destruct (earcut _ _ 2) as [indices | e]; [| discriminate].
    cbn [bindResult]. intros [= <-].
    eapply List.Forall_impl; [| apply mergeTriangles_convexOrInput].
    intros poly [Hc | Hpoly]; [now left | right].
    pose proof (trianglesOf_three
                  (vertices (prepareEarcutInput boundingBox obstacles)) indices) as Hthree.
    rewrite List.Forall_forall in Hthree. now apply Hthree.
Qed.

(** ** The specification's sample inputs, evaluated *)

(** A bounding box with 3 or 5 points is rejected; so are an obstacle with 2
    points and a concave 4-point obstacle; a box with a convex obstacle is
    accepted. *)
Example validateInput_samples :
  validateInput [pt 0 0; pt 10 0; pt 10 10] [] = Throw BoundingBoxError
  /\ validateInput (sampleBox ++ [pt 5 5]) [] = Throw BoundingBoxError
  /\ validateInput sampleBox [smallSquare; [pt 1 1; pt 2 2]] = Throw (ObstaclePointsError 2)
  /\ validateInput sampleBox [arrowhead] = Throw (ObstacleConvexError 1)
  /\ validateInput sampleBox [smallSquare] = Ok tt.
Proof. repeat split. Qed.

(** With a triangulator that cuts the box along a diagonal, the two
    triangles are merged back into the box. *)
Example decompose_box_without_obstacles :
  decomposeWalkableArea (fun _ _ _ => Ok [0; 1; 2; 0; 2; 3]) sampleBox [] = Ok [sampleBox].
Proof. vm_compute. reflexivity. Qed.

(** The two triangles of that cut list each other as neighbours. *)
Example adjacency_of_two_triangles :
  buildAdjacencyMap [[pt 0 0; pt 10 0; pt 10 10]; [pt 0 0; pt 10 10; pt 0 10]] !! 0 = Some [1]
  /\ buildAdjacencyMap [[pt 0 0; pt 10 0; pt 10 10]; [pt 0 0; pt 10 10; pt 0 10]] !! 1 = Some [0].
Proof. split; vm_compute; reflexivity. Qed.

(** * Further properties of the module *)

(** ** [getEdges]: the edges of a polygon form a closed chain *)

Lemma getEdges_length (poly : Polygon) : length (getEdges poly) = length poly.
Proof. unfold getEdges. apply length_imap. Qed.

Lemma getEdges_nth (poly : Polygon) (k : nat) (d : Point * Point) :
  k < length poly ->
  nth k (getEdges poly) d = (at_index poly k, at_index poly ((k + 1) mod length poly)).
Proof.
  intros Hk. rewrite nth_lookup. unfold getEdges. rewrite list_lookup_imap.
  destruct (lookup_lt_is_Some_2 poly k Hk) as [p Hp].
  rewrite Hp. cbn. f_equal. unfold at_index. rewrite nth_lookup, Hp. reflexivity.
Qed.

Lemma getEdges_map_fst (poly : Polygon) : map fst (getEdges poly) = poly.
Proof.
  apply (nth_ext _ _ (fst (undefinedPoint, undefinedPoint)) undefinedPoint).
  - now rewrite length_map, getEdges_length.
  - intros k Hk. rewrite length_map, getEdges_length in Hk.
    rewrite map_nth, getEdges_nth by exact Hk. reflexivity.
Qed.

Lemma getEdges_map_snd (poly : Polygon) :
  map snd (getEdges poly) = tl poly ++ firstn 1 poly.
Proof.
  apply (nth_ext _ _ (snd (undefinedPoint, undefinedPoint)) undefinedPoint).
  - rewrite length_map, getEdges_length, length_app.
    destruct poly as [| p [| q rest]]; cbn; lia.
  - intros k Hk. rewrite length_map, getEdges_length in Hk.
    rewrite map_nth, getEdges_nth by exact Hk. cbn [snd]. unfold at_index.
    destruct poly as [| p rest]; [cbn in Hk; lia |].
    cbn [tl firstn length] in *.
    destruct (Nat.eq_dec (k + 1) (S (length rest))) as [Hlast | Hmid].
    + rewrite Hlast, Nat.Div0.mod_same. cbn [nth].
      rewrite app_nth2 by lia. replace (k - length rest) with 0 by lia. reflexivity.
    + rewrite Nat.mod_small by lia. rewrite app_nth1 by lia.
      replace (k + 1) with (S k) by lia. reflexivity.
Qed.

(** X1: [getEdges] returns one edge per vertex; the edges start at the
    vertices of the polygon in order and end at the next vertex, the last
    edge closing the chain at the first vertex.  An empty polygon has no
    edge. *)
Theorem getEdges_closed_chain (poly : Polygon) :
  length (getEdges poly) = length poly
  /\ map fst (getEdges poly) = poly
  /\ map snd (getEdges poly) = tl poly ++ firstn 1 poly
  /\ getEdges [] = [].
Proof.
  split; [apply getEdges_length |].
  split; [apply getEdges_map_fst |].
  split; [apply getEdges_map_snd | reflexivity].
Qed.

(** ** [findSharedEdge]: the first matching edge of the first polygon *)

Lemma find_first {A : Type} (f : A -> bool) (l : list A) (a : A) :
  find f l = Some a ->
  exists before after,
    l = before ++ a :: after /\ f a = true /\ Forall (fun y => f y = false) before.
Proof.
  induction l as [| y rest IH]; cbn [find]; [discriminate |].
  destruct (f y) eqn:Hy.
  - intros [= ->]. exists [], rest. repeat split; [assumption | constructor].
  - intros Hfind. destruct (IH Hfind) as (before & after & -> & Ha & Hbefore).
    exists (y :: before), after. repeat split; [assumption | now constructor].
Qed.

Lemma getEdges_In (poly : Polygon) (a b : Point) :
  In (a, b) (getEdges poly) -> In a poly /\ In b poly.
Proof.
  intros Hin. split.
  - rewrite <- (getEdges_map_fst poly). now apply (in_map fst) in Hin.
  - apply (in_map snd) in Hin. rewrite getEdges_map_snd in Hin. cbn [snd] in Hin.
    apply in_app_or in Hin as [Hin | Hin].
    + destruct poly; [contradiction | now right].
    + destruct poly; [contradiction |]. cbn in Hin. destruct Hin as [<- | []]. now left.
Qed.

(** X2: when [findSharedEdge] returns an edge, it is an edge of polygon 1
    that matches some edge of polygon 2 in one of the two directions, no
    earlier edge of polygon 1 matches any edge of polygon 2, and both its
    endpoints are vertices of polygon 1. *)
Theorem findSharedEdge_first_match (poly1 poly2 : Polygon) (a b : Point) :
  findSharedEdge poly1 poly2 = Some (a, b) ->
  (exists before after,
     getEdges poly1 = before ++ (a, b) :: after
     /\ Forall (fun e1 => Forall (fun e2 => edgesMatch e1 e2 = false) (getEdges poly2)) before)
  /\ (exists c d, In (c, d) (getEdges poly2)
                  /\ ((pointsEqual a c = true /\ pointsEqual b d = true)
                      \/ (pointsEqual a d = true /\ pointsEqual b c = true)))
  /\ In a poly1 /\ In b poly1.
Proof.
  unfold findSharedEdge. rewrite findSharedEdge_outer_spec. intros Hfind.
  destruct (find_first _ _ _ Hfind) as (before & after & Hedges & Hmatch & Hbefore).
  split; [| split].
  - exists before, after. split; [exact Hedges |].
    eapply List.Forall_impl; [| exact Hbefore].
    intros e1 He1. apply List.Forall_forall. intros e2 He2.
    destruct (edgesMatch e1 e2) eqn:Hm; [| reflexivity].
    assert (Hex : existsb (fun e2 => edgesMatch e1 e2) (getEdges poly2) = true)
      by (apply existsb_exists; now exists e2).
    congruence.
  - apply existsb_exists in Hmatch as [[c d] [Hin Hm]].
    exists c, d. split; [exact Hin | now apply edgesMatch_true].
  - apply (getEdges_In poly1 a b). rewrite Hedges. apply in_elt.
Qed.

(** The two triangles on the edge from (0,0) to (1,0). *)
Lemma findSharedEdge_first_match_witness :
  findSharedEdge triangleABC triangleBAD = Some (pt 0 0, pt 1 0)
  /\ In (pt 0 0) triangleABC /\ In (pt 1 0) triangleABC.
Proof.
  assert (Hshared : findSharedEdge triangleABC triangleBAD = Some (pt 0 0, pt 1 0))
    by (vm_compute; reflexivity).
  split; [exact Hshared |].
  exact (proj2 (proj2 (findSharedEdge_first_match _ _ _ _ Hshared))).
Defined.

(** ** [mergePolygons]: what the result is made of *)

Lemma findIndex_bounds (test : Point -> bool) (poly : Polygon) :
  (-1 <= findIndex test poly < Z.of_nat (length poly))%Z.
Proof.
  induction poly as [| p rest IH]; cbn [findIndex length]; [lia |].
  destruct (test p); [lia |].
  destruct (Z.ltb_spec (findIndex test rest) 0); lia.
Qed.

(** The index at which the splice starts is a position of polygon 2. *)
Lemma startIndex_bound (test : Point -> bool) (poly2 : Polygon) :
  poly2 <> [] ->
  Z.to_nat (Z.rem (findIndex test poly2 + 1) (Z.of_nat (length poly2))) < length poly2.
Proof.
  intros Hne. pose proof (findIndex_bounds test poly2) as Hk.
  assert (0 < length poly2) by (destruct poly2; [contradiction | cbn; lia]).
  rewrite Z.rem_mod_nonneg by lia.
  pose proof (Z.mod_pos_bound (findIndex test poly2 + 1) (Z.of_nat (length poly2))).
  lia.
Qed.

(** The innermost loop appends [count] vertices of polygon 2 and leaves the
    index at a position of polygon 2. *)
Lemma spliceLoop_inserts (poly2 : Polygon) (count : nat) (newPoly : Polygon) (index : nat) :
  index < length poly2 ->
  exists inserted index',
    spliceLoop poly2 count newPoly index = (newPoly ++ inserted, index')
    /\ index' < length poly2 /\ length inserted = count
    /\ Forall (fun p => In p poly2) inserted.
Proof.
  revert newPoly index.
  induction count as [| count IH]; intros newPoly index Hindex; cbn [spliceLoop].
  - exists [], index. rewrite app_nil_r. repeat split; [assumption | constructor].
  - destruct (IH (newPoly ++ [at_index poly2 index]) ((index + 1) mod length poly2))
      as (inserted & index' & Heq & Hindex' & Hlen & Hall).
    { apply Nat.mod_upper_bound. lia. }
    exists (at_index poly2 index :: inserted), index'.
    rewrite Heq, <- app_assoc. repeat split; [assumption | cbn; lia |].
    constructor; [| exact Hall]. unfold at_index. now apply nth_In.
Qed.

(** The loop over polygon 1 appends its vertices in order, with vertices of
    polygon 2 in between. *)
Lemma mergeLoop_extends (edgeStart : Point) (poly2 rest1 newPoly : Polygon) (index : nat) :
  index < length poly2 ->
  exists added,
    mergeLoop edgeStart poly2 rest1 newPoly index = newPoly ++ added
    /\ sublist rest1 added
    /\ Forall (fun p => In p rest1 \/ In p poly2) added.
Proof.
  revert newPoly index.
  induction rest1 as [| p rest IH]; intros newPoly index Hindex; cbn [mergeLoop].
  - exists []. rewrite app_nil_r. repeat split; constructor.
  - destruct (pointsEqual p edgeStart); cbn [negb].
    + destruct (spliceLoop_inserts poly2 (length poly2 - 2) (newPoly ++ [p]) index Hindex)
        as (inserted & index' & Heq & Hindex' & _ & Hall).
      rewrite Heq.
      destruct (IH ((newPoly ++ [p]) ++ inserted) index' Hindex')
        as (added & Hadded & Hsub & Hfrom).
      exists (p :: inserted ++ added). rewrite Hadded, <- !app_assoc.
      repeat split.
      * apply sublist_skip. now apply sublist_inserts_l.
      * constructor; [left; now left |]. apply Forall_app. split.
        -- eapply List.Forall_impl; [| exact Hall]. intros q Hq. now right.
        -- eapply List.Forall_impl; [| exact Hfrom].
           intros q [Hq | Hq]; [left; now right | now right].
    + destruct (IH (newPoly ++ [p]) index Hindex) as (added & Hadded & Hsub & Hfrom).
      exists (p :: added). rewrite Hadded, <- app_assoc.
      repeat split.
      * now apply sublist_skip.
      * constructor; [left; now left |].
        eapply List.Forall_impl; [| exact Hfrom].
        intros q [Hq | Hq]; [left; now right | now right].
Qed.

Lemma findSharedEdge_nonempty (poly1 poly2 : Polygon) (e : Point * Point) :
  findSharedEdge poly1 poly2 = Some e -> poly1 <> [] /\ poly2 <> [].
Proof.
  intros Hshared. split; intros ->.
  - discriminate Hshared.
  - unfold findSharedEdge in Hshared. rewrite findSharedEdge_outer_spec in Hshared.
    apply find_some in Hshared as [_ Hex]. discriminate Hex.
Qed.

(** The shared endpoint found is identified with itself and is a vertex of
    polygon 1: the splice takes place at least once. *)
Lemma findSharedEdge_start (poly1 poly2 : Polygon) (a b : Point) :
  findSharedEdge poly1 poly2 = Some (a, b) ->
  1 <= length (List.filter (fun p => pointsEqual p a) poly1).
Proof.
  intros Hshared.
  assert (Hin : In a poly1 /\ pointsEqual a a = true).
  { unfold findSharedEdge in Hshared. rewrite findSharedEdge_outer_spec in Hshared.
    apply find_some in Hshared as [Hedge Hex].
    split; [now apply (getEdges_In poly1 a b) |].
    apply existsb_exists in Hex as [[c d] [_ Hm]].
    apply edgesMatch_true in Hm as [[Hac _] | [Had _]];
      eapply pointsEqual_refl_l; eassumption. }
  destruct Hin as [Hin Hrefl].
  assert (Hf : In a (List.filter (fun p => pointsEqual p a) poly1))
    by (apply filter_In; now split).
  destruct (List.filter (fun p => pointsEqual p a) poly1); [contradiction | cbn; lia].
Qed.

Lemma mergePolygons_sublist (poly1 poly2 merged : Polygon) :
  mergePolygons poly1 poly2 = Some merged ->
  sublist poly1 merged /\ Forall (fun p => In p poly1 \/ In p poly2) merged.
Proof.
  unfold mergePolygons.
  destruct (findSharedEdge poly1 poly2) as [[a b] |] eqn:Hshared; [| discriminate].
  cbn [fst]. intros [= <-].
  destruct (findSharedEdge_nonempty _ _ _ Hshared) as [_ Hne2].
  pose proof (startIndex_bound (fun p => pointsEqual p a) poly2 Hne2) as Hindex.
  destruct (mergeLoop_extends a poly2 poly1 [] _ Hindex) as (added & Heq & Hsub & Hfrom).
  rewrite Heq. now split.
Qed.

(** X3: the result of [mergePolygons] keeps every vertex of polygon 1, in
    order; every other vertex of it is a vertex of polygon 2; and it has
    [|poly1| + (|poly2| - 2) * k] vertices, where [k >= 1] is the number of
    vertices of polygon 1 identified with the first endpoint of the shared
    edge. *)
Theorem mergePolygons_keeps_vertices (poly1 poly2 merged : Polygon) :
  mergePolygons poly1 poly2 = Some merged ->
  sublist poly1 merged
  /\ Forall (fun p => In p poly1 \/ In p poly2) merged
  /\ exists a b k,
       findSharedEdge poly1 poly2 = Some (a, b)
       /\ k = length (List.filter (fun p => pointsEqual p a) poly1)
       /\ 1 <= k
       /\ length merged = length poly1 + (length poly2 - 2) * k.
Proof.
  unfold mergePolygons.
  destruct (findSharedEdge poly1 poly2) as [[a b] |] eqn:Hshared; [| discriminate].
  cbn [fst]. intros [= <-].
  destruct (findSharedEdge_nonempty _ _ _ Hshared) as [_ Hne2].
  pose proof (startIndex_bound (fun p => pointsEqual p a) poly2 Hne2) as Hindex.
  destruct (mergeLoop_extends a poly2 poly1 [] _ Hindex) as (added & Heq & Hsub & Hfrom).
  split; [| split].
  - rewrite Heq. exact Hsub.
  - rewrite Heq. exact Hfrom.
  - exists a, b, (length (List.filter (fun p => pointsEqual p a) poly1)).
    repeat split; [now apply (findSharedEdge_start poly1 poly2 a b) |].
    rewrite mergeLoop_length. cbn [length]. lia.
Qed.

(** The splice of [triangleABC] with [triangleBAD]. *)
Lemma mergePolygons_keeps_vertices_witness :
  mergePolygons triangleABC triangleBAD = Some [pt 0 0; pt 0 (-1); pt 1 0; pt 1 1]
  /\ sublist triangleABC [pt 0 0; pt 0 (-1); pt 1 0; pt 1 1].
Proof.
  assert (Hmerged : mergePolygons triangleABC triangleBAD
                    = Some [pt 0 0; pt 0 (-1); pt 1 0; pt 1 1]) by (vm_compute; reflexivity).
  split; [exact Hmerged |].
  exact (proj1 (mergePolygons_keeps_vertices _ _ _ Hmerged)).
Defined.

(** X4: [mergePolygons] returns [null] when either polygon is empty; and a
    second polygon with at most 2 vertices contributes nothing: the result,
    if any, is polygon 1 itself. *)
Theorem mergePolygons_degenerate (poly1 poly2 : Polygon) :
  mergePolygons [] poly2 = None
  /\ mergePolygons poly1 [] = None
  /\ (length poly2 <= 2 ->
      forall merged, mergePolygons poly1 poly2 = Some merged -> merged = poly1).
Proof.
  split; [reflexivity |]. split.
  - destruct (mergePolygons poly1 []) as [merged |] eqn:Hmerge; [| reflexivity].
    unfold mergePolygons in Hmerge.
    destruct (findSharedEdge poly1 []) as [e |] eqn:Hshared; [| discriminate].
    now destruct (findSharedEdge_nonempty _ _ _ Hshared) as [_ []].
  - intros Hlen merged. unfold mergePolygons.
    destruct (findSharedEdge poly1 poly2) as [[a b] |]; [| discriminate].
    cbn [fst]. intros [= <-].
    replace (length poly2 - 2) with 0 by lia.
    generalize (Z.to_nat (Z.rem (findIndex (fun p => pointsEqual p a) poly2 + 1)
                                (Z.of_nat (length poly2)))).
    intros index.
    assert (Hloop : forall rest1 newPoly,
               mergeLoop a poly2 rest1 newPoly index = newPoly ++ rest1).
    { induction rest1 as [| p rest IH]; intros newPoly; cbn [mergeLoop].
      - now rewrite app_nil_r.
      - replace (length poly2 - 2) with 0 by lia. cbn [spliceLoop].
        destruct (pointsEqual p a); cbn [negb]; rewrite IH, <- app_assoc; reflexivity. }
    apply Hloop.
Qed.

(** ** The adjacency map *)

Lemma filter_seq_sorted (f : nat -> bool) (start len : nat) :
  StronglySorted lt (List.filter f (seq start len)).
Proof.
  revert start. induction len as [| len IH]; intros start; cbn [seq List.filter];
    [constructor |].
  destruct (f start); [| apply IH].
  constructor; [apply IH |].
  apply List.Forall_forall. intros j [Hj _]%filter_In. apply in_seq in Hj. lia.
Qed.

(** X5: the adjacency map has exactly the keys [0 .. triangles.length - 1];
    the row of [i] lists, in increasing order and without repetition, exactly
    the indices [j] other than [i] whose triangle shares an edge with
    triangle [i]. *)
Theorem adjacencyMap_rows (triangles : list Polygon) (i : nat) :
  (is_Some (buildAdjacencyMap triangles !! i) <-> i < length triangles)
  /\ (forall row, buildAdjacencyMap triangles !! i = Some row ->
        StronglySorted lt row
        /\ forall j, In j row <->
                     j < length triangles /\ j <> i
                     /\ shareEdge (triangleAt triangles i) (triangleAt triangles j) = true).
Proof.
  rewrite buildAdjacencyMap_lookup.
  destruct (decide (i < length triangles)) as [Hi | Hi]; split.
  - split; [intros _; exact Hi | intros _; eauto].
  - intros row [= <-]. split; [apply filter_seq_sorted |].
    intros j. rewrite filter_In, in_seq. unfold adjacent.
    rewrite negb_true_iff, orb_false_iff, negb_false_iff, Nat.eqb_neq. intuition lia.
  - split; [intros [row Hrow]; discriminate | intros Hlt; contradiction].
  - intros row Hrow. discriminate.
Qed.

(** ** The merge step: where the polygons returned come from *)

Lemma triangleAt_vertices (triangles : list Polygon) (i : nat) :
  Forall (fun p => In p (concat triangles)) (triangleAt triangles i).
Proof.
  unfold triangleAt. destruct (le_lt_dec (length triangles) i) as [Hge | Hlt].
  - rewrite nth_overflow by exact Hge. constructor.
  - apply List.Forall_forall. intros p Hp. apply in_concat.
    exists (nth i triangles []). split; [now apply nth_In | exact Hp].
Qed.

Lemma mergeNeighbors_grows (triangles : list Polygon) (seed : Polygon) (neighbors : list nat)
      (mergedPoly : Polygon) (visited : gset nat) :
  sublist seed mergedPoly ->
  Forall (fun p => In p (concat triangles)) mergedPoly ->
  sublist seed (fst (mergeNeighbors triangles neighbors mergedPoly visited))
  /\ Forall (fun p => In p (concat triangles))
            (fst (mergeNeighbors triangles neighbors mergedPoly visited)).
Proof.
  revert mergedPoly visited.
  induction neighbors as [| neighborIdx rest IH]; intros mergedPoly visited Hsub Hfrom;
    cbn [mergeNeighbors]; [now split |].
  destruct (decide (neighborIdx ∈ visited)); [now apply IH |].
  destruct (mergePolygons mergedPoly (triangleAt triangles neighborIdx))
    as [candidate |] eqn:Hmerge; [| now apply IH].
  destruct (isConvex candidate); [| now apply IH].
  destruct (mergePolygons_sublist _ _ _ Hmerge) as [Hsub' Hfrom'].
  apply IH.
  - now transitivity mergedPoly.
  - apply List.Forall_forall. intros p Hp.
    rewrite List.Forall_forall in Hfrom'. destruct (Hfrom' p Hp) as [Hin | Hin].
    + rewrite List.Forall_forall in Hfrom. now apply Hfrom.
    + pose proof (triangleAt_vertices triangles neighborIdx) as Hall.
      rewrite List.Forall_forall in Hall. now apply Hall.
Qed.

Lemma mergeLoopTriangles_grown (triangles : list Polygon)
      (adjacencyMap : gmap nat (list nat)) (idxs : list nat) (visited : gset nat)
      (result : list Polygon) :
  Forall (fun i => i < length triangles) idxs ->
  Forall (grownFromTriangle triangles) result ->
  Forall (grownFromTriangle triangles)
         (mergeLoopTriangles triangles adjacencyMap idxs visited result).
Proof.
  revert visited result.
  induction idxs as [| i rest IH]; intros visited result Hidxs Hresult;
    cbn [mergeLoopTriangles]; [exact Hresult |].
  inversion Hidxs as [| ? ? Hi Hrest]; subst.
  destruct (decide (i ∈ visited)); [now apply IH |].
  pose proof (mergeNeighbors_grows triangles (triangleAt triangles i)
                (default [] (adjacencyMap !! i)) (triangleAt triangles i)
                ({[i]} ∪ visited) (reflexivity _) (triangleAt_vertices triangles i))
    as [Hsub Hfrom].
  destruct (mergeNeighbors triangles (default [] (adjacencyMap !! i))
              (triangleAt triangles i) ({[i]} ∪ visited)) as [mergedPoly visited'].
  cbn [fst] in Hsub, Hfrom.
  apply IH; [exact Hrest |].
  apply Forall_app. split; [exact Hresult |].
  constructor; [| constructor]. split; [now exists i | exact Hfrom].
Qed.

(** Every index met adds at most one polygon, and none is taken away. *)
Lemma mergeLoopTriangles_length (triangles : list Polygon)
      (adjacencyMap : gmap nat (list nat)) (idxs : list nat) (visited : gset nat)
      (result : list Polygon) :
  length result <= length (mergeLoopTriangles triangles adjacencyMap idxs visited result)
  <= length result + length idxs.
Proof.
  revert visited result.
  induction idxs as [| i rest IH]; intros visited result; cbn [mergeLoopTriangles length];
    [lia |].
  destruct (decide (i ∈ visited)).
  - specialize (IH visited result). lia.
  - destruct (mergeNeighbors triangles (default [] (adjacencyMap !! i))
                (triangleAt triangles i) ({[i]} ∪ visited)) as [mergedPoly visited'].
    specialize (IH visited' (result ++ [mergedPoly])).
    rewrite length_app in IH. cbn [length] in IH. lia.
Qed.

(** An index that is not visited yet starts a new polygon. *)
Lemma mergeLoopTriangles_seed (triangles : list Polygon)
      (adjacencyMap : gmap nat (list nat)) (i : nat) (rest : list nat) (visited : gset nat)
      (result : list Polygon) :
  i ∉ visited ->
  length result < length (mergeLoopTriangles triangles adjacencyMap (i :: rest) visited result).
Proof.
  intros Hi. cbn [mergeLoopTriangles]. rewrite decide_False by exact Hi.
  destruct (mergeNeighbors triangles (default [] (adjacencyMap !! i))
              (triangleAt triangles i) ({[i]} ∪ visited)) as [mergedPoly visited'].
  pose proof (mergeLoopTriangles_length triangles adjacencyMap rest visited'
                (result ++ [mergedPoly])) as [Hlen _].
  rewrite length_app in Hlen. cbn [length] in Hlen. lia.
Qed.

Lemma merged_polygons_from_triangles_aux (triangles : list Polygon) :
  length (mergeTrianglesToConvexPolygons triangles) <= length triangles
  /\ Forall (grownFromTriangle triangles) (mergeTrianglesToConvexPolygons triangles).
Proof.
  unfold mergeTrianglesToConvexPolygons. split.
  - pose proof (mergeLoopTriangles_length triangles (buildAdjacencyMap triangles)
                  (seq 0 (length triangles)) ∅ []) as Hlen.
    rewrite length_seq in Hlen. cbn [length] in Hlen. lia.
  - apply mergeLoopTriangles_grown; [| constructor].
    apply List.Forall_forall. intros i Hi%in_seq. lia.
Qed.

(** X6: [mergeTrianglesToConvexPolygons] returns at most as many polygons as
    it was given triangles, and at least one unless it was given none.
    Every polygon returned grew out of one of the triangles: it contains the
    vertices of that triangle in order, and all its vertices are vertices of
    the triangles given.  So when every triangle has 3 points, every polygon
    returned has at least 3. *)
Theorem merged_polygons_from_triangles (triangles : list Polygon) :
  length (mergeTrianglesToConvexPolygons triangles) <= length triangles
  /\ (triangles <> [] -> mergeTrianglesToConvexPolygons triangles <> [])
  /\ Forall (grownFromTriangle triangles) (mergeTrianglesToConvexPolygons triangles)
  /\ (Forall (fun tri => length tri = 3) triangles ->
      Forall (fun poly => 3 <= length poly) (mergeTrianglesToConvexPolygons triangles)).
Proof.
  assert (Hgrown : Forall (grownFromTriangle triangles)
                          (mergeTrianglesToConvexPolygons triangles)).
  { unfold mergeTrianglesToConvexPolygons.
    apply mergeLoopTriangles_grown; [| constructor].
    apply List.Forall_forall. intros i Hi%in_seq. lia. }
  split; [| split; [| split; [exact Hgrown |]]].
  - unfold mergeTrianglesToConvexPolygons.
    pose proof (mergeLoopTriangles_length triangles (buildAdjacencyMap triangles)
                  (seq 0 (length triangles)) ∅ []) as Hlen.
    rewrite length_seq in Hlen. cbn [length] in Hlen. lia.
  - intros Hne. unfold mergeTrianglesToConvexPolygons.
    destruct triangles as [| tri rest]; [contradiction |].
    pose proof (mergeLoopTriangles_seed (tri :: rest) (buildAdjacencyMap (tri :: rest))
                  0 (seq 1 (length rest)) ∅ [] ltac:(set_solver)) as Hlen.
    cbn [length seq] in *.
    intros Heq. rewrite Heq in Hlen. cbn [length] in Hlen. lia.
  - intros Hthree. eapply List.Forall_impl; [| exact Hgrown].
    intros poly [(i & Hi & Hsub) _].
    apply sublist_length in Hsub.
    rewrite List.Forall_forall in Hthree.
    rewrite (Hthree (triangleAt triangles i)) in Hsub by now apply nth_In.
    exact Hsub.
Qed.

(** ** Triangles without neighbours *)

Lemma noSharedEdges_row (triangles : list Polygon) (i : nat) :
  noSharedEdges triangles ->
  default [] (buildAdjacencyMap triangles !! i) = [].
Proof.
  intros Hnone. rewrite buildAdjacencyMap_lookup.
  destruct (decide (i < length triangles)) as [Hi | Hi]; [| reflexivity].
  cbn [default].
  destruct (List.filter (adjacent triangles i) (seq 0 (length triangles)))
    as [| j row] eqn:Hrow; [reflexivity |].
  assert (Hj : In j (List.filter (adjacent triangles i) (seq 0 (length triangles))))
    by (rewrite Hrow; now left).
  apply filter_In in Hj as [Hj Hadj]. apply in_seq in Hj.
  unfold adjacent in Hadj.
  destruct (Nat.eqb_spec i j) as [-> | Hne]; [discriminate |].
  rewrite (Hnone i j) in Hadj by lia. discriminate.
Qed.

Lemma mergeLoopTriangles_isolated (triangles : list Polygon)
      (adjacencyMap : gmap nat (list nat)) (idxs : list nat) (visited : gset nat)
      (result : list Polygon) :
  (forall i, default [] (adjacencyMap !! i) = []) ->
  NoDup idxs ->
  Forall (fun i => i ∉ visited) idxs ->
  mergeLoopTriangles triangles adjacencyMap idxs visited result
  = result ++ map (triangleAt triangles) idxs.
Proof.
  intros Hrows. revert visited result.
  induction idxs as [| i rest IH]; intros visited result Hnodup Hfresh;
    cbn [mergeLoopTriangles map].
  - now rewrite app_nil_r.
  - inversion Hfresh as [| ? ? Hi Hrest]; subst.
    apply NoDup_cons in Hnodup as [Hnotin Hnodup].
    rewrite decide_False by exact Hi.
    rewrite Hrows. cbn [mergeNeighbors].
    rewrite IH; [now rewrite <- app_assoc | exact Hnodup |].
    apply List.Forall_forall. intros j Hj.
    rewrite List.Forall_forall in Hrest.
    intros [Hji%elem_of_singleton | Hjv]%elem_of_union.
    + subst j. apply Hnotin. now apply list_elem_of_In.
    + now apply (Hrest j).
Qed.

(** X7: when no two triangles share an edge, [mergeTrianglesToConvexPolygons]
    returns the triangles as they are, in the same order. *)
Theorem isolated_triangles_unchanged (triangles : list Polygon) :
  noSharedEdges triangles ->
  mergeTrianglesToConvexPolygons triangles = triangles.
Proof.
  intros Hnone. unfold mergeTrianglesToConvexPolygons.
  rewrite mergeLoopTriangles_isolated.
  - cbn [app]. unfold triangleAt.
    rewrite (map_nth_seq triangles [] (length triangles)), Nat.sub_diag.
    cbn [repeat]. rewrite app_nil_r. apply firstn_all.
  - intros i. now apply noSharedEdges_row.
  - apply NoDup_ListNoDup, seq_NoDup.
  - apply List.Forall_forall. intros i _. set_solver.
Qed.

(** Two triangles that are far apart. *)
Lemma isolated_triangles_unchanged_witness :
  noSharedEdges [triangleABC; [pt 5 5; pt 6 5; pt 6 6]]
  /\ mergeTrianglesToConvexPolygons [triangleABC; [pt 5 5; pt 6 5; pt 6 6]]
     = [triangleABC; [pt 5 5; pt 6 5; pt 6 6]].
Proof.
  assert (Hnone : noSharedEdges [triangleABC; [pt 5 5; pt 6 5; pt 6 6]]).
  { intros i j Hi Hj Hne. cbn [length] in Hi, Hj.
    destruct i as [| [| i]], j as [| [| j]]; try lia; vm_compute; reflexivity. }
  split; [exact Hnone |].
  exact (isolated_triangles_unchanged _ Hnone).
Defined.

(** ** Points with a coordinate that is not finite *)

Lemma pointsEqual_diag (p : Point) : pointsEqual p p = finitePoint p.
Proof. rewrite pointsEqual_closeTo, !closeTo_diag. reflexivity. Qed.

Lemma pointsEqual_finite (a b : Point) :
  pointsEqual a b = true -> finitePoint a = true /\ finitePoint b = true.
Proof.
  intros Hab. rewrite <- !pointsEqual_diag. split.
  - now apply (pointsEqual_refl_l a b).
  - now apply (pointsEqual_refl_r a b).
Qed.

Lemma shareEdge_not_finite (poly other : Polygon) :
  Forall (fun p => finitePoint p = false) poly -> shareEdge poly other = false.
Proof.
  intros Hpoly. destruct (shareEdge poly other) eqn:Hshare; [| reflexivity].
  apply shareEdge_true in Hshare as (a & b & c & d & Hab & _ & Hmatch).
  apply getEdges_In in Hab as [Ha _].
  rewrite List.Forall_forall in Hpoly. specialize (Hpoly a Ha).
  destruct Hmatch as [[Hac _] | [Had _]].
  - apply pointsEqual_finite in Hac as [Hfin _]. congruence.
  - apply pointsEqual_finite in Had as [Hfin _]. congruence.
Qed.

(** X8: [pointsEqual] never holds for a point with a [NaN] or infinite
    coordinate.  So a polygon all of whose vertices have such a coordinate
    shares no edge with any polygon, and [mergePolygons] never merges it. *)
Theorem non_finite_points_never_match (a b : Point) (poly other : Polygon) :
  (pointsEqual a b = true -> finitePoint a = true /\ finitePoint b = true)
  /\ (Forall (fun p => finitePoint p = false) poly ->
      shareEdge poly other = false /\ shareEdge other poly = false
      /\ mergePolygons poly other = None /\ mergePolygons other poly = None).
Proof.
  split; [apply pointsEqual_finite |].
  intros Hpoly.
  assert (H1 : shareEdge poly other = false) by now apply shareEdge_not_finite.
  assert (H2 : shareEdge other poly = false) by now rewrite shareEdge_sym.
  repeat split; try assumption.
  - apply mergePolygons_None. now apply findSharedEdge_None.
  - apply mergePolygons_None. now apply findSharedEdge_None.
Qed.

(** ** From the flattened buffer back to the points *)

Lemma vertexOf_coordsOf (poly : Polygon) (k : nat) :
  vertexOf (coordsOf poly) k = at_index poly k.
Proof.
  revert k. induction poly as [| p rest IH]; intros k.
  - unfold vertexOf, coordAt, at_index. cbn [coordsOf flat_map].
    destruct k; cbn; reflexivity.
  - destruct k as [| k].
    + destruct p. reflexivity.
    + specialize (IH k). unfold vertexOf, coordAt, at_index in *.
      cbn [coordsOf flat_map app nth]. fold (coordsOf rest).
      replace (S k * 2) with (S (S (k * 2))) by lia. cbn [Nat.add nth].
      exact IH.
Qed.

Lemma prepareEarcutInput_eq (boundingBox : Polygon) (obstacles : list Polygon) :
  prepareEarcutInput boundingBox obstacles
  = {| vertices := coordsOf (boundingBox ++ concat obstacles);
       holes := holeStarts (length boundingBox) obstacles |}.
Proof.
  unfold prepareEarcutInput. rewrite pushObstacles_spec, pushPoints_spec.
  cbn [app]. now rewrite <- coordsOf_app.
Qed.

(** X9: reading vertex [k] out of the buffer built by [prepareEarcutInput],
    as [triangulateWithEarcut] does, gives back point [k] of the bounding
    box followed by the obstacles (and the undefined point past the end);
    vertex [holes[k] + j] is point [j] of obstacle [k]; and the buffer has
    two numbers per point. *)
Theorem flattened_vertices_round_trip (boundingBox : Polygon) (obstacles : list Polygon) :
  let input := prepareEarcutInput boundingBox obstacles in
  (forall k, vertexOf (vertices input) k = at_index (boundingBox ++ concat obstacles) k)
  /\ (forall k j, k < length obstacles -> j < length (nth k obstacles []) ->
        vertexOf (vertices input) (nth k (holes input) 0 + j)
        = at_index (nth k obstacles []) j)
  /\ length (vertices input) = 2 * (length boundingBox + length (concat obstacles)).
Proof.
  cbn zeta. rewrite prepareEarcutInput_eq. cbn [vertices holes].
  split; [intros k; apply vertexOf_coordsOf |]. split.
  - intros k j Hk Hj. rewrite vertexOf_coordsOf, holeStarts_nth by exact Hk.
    pose proof (nth_middle_split obstacles k [] Hk) as Hsplit.
    set (pre := firstn k obstacles) in *.
    set (obstacle := nth k obstacles []) in *.
    replace (concat obstacles)
      with (concat pre ++ obstacle ++ concat (skipn (S k) obstacles))
      by (now rewrite <- concat_cons, <- concat_app, <- Hsplit).
    unfold at_index.
    rewrite app_nth2 by lia. rewrite app_nth2 by lia. rewrite app_nth1 by lia.
    f_equal. lia.
  - rewrite coordsOf_length, length_app. reflexivity.
Qed.

(** ** [triangulateWithEarcut]: from indices to triangles *)

Lemma trianglesOf_spec (vertices : list float) (indices : list nat) :
  length (trianglesOf vertices indices) = (length indices + 2) / 3
  /\ concat (trianglesOf vertices indices)
     = map (vertexOf vertices) indices ++ repeat undefinedPoint (missingPoints (length indices)).
Proof.
  assert (H : forall n indices, length indices <= n ->
                length (trianglesOf vertices indices) = (length indices + 2) / 3
                /\ concat (trianglesOf vertices indices)
                   = map (vertexOf vertices) indices
                     ++ repeat undefinedPoint (missingPoints (length indices))).
  { clear indices. induction n as [| n IH]; intros indices Hlen.
    - destruct indices; [split; reflexivity | simpl in Hlen; lia].
    - destruct indices as [| i0 [| i1 [| i2 rest]]]; try (split; reflexivity).
      destruct (IH rest) as [Hcount Hconcat]; [simpl in Hlen; lia |].
      cbn [trianglesOf length concat map app]. rewrite Hcount, Hconcat.
      split.
      + replace (S (S (S (length rest))) + 2) with ((length rest + 2) + 1 * 3) by lia.
        rewrite Nat.div_add by lia. lia.
      + unfold missingPoints.
        replace (S (S (S (length rest)))) with (length rest + 1 * 3) by lia.
        rewrite Nat.Div0.mod_add. reflexivity. }
  now apply (H (length indices)).
Qed.

(** X10: [triangulateWithEarcut] lets an exception of the triangulator
    through; otherwise it returns one 3-point triangle per started triple of
    indices, whose points are the vertices read from the buffer at these
    indices, in order, the last triangle being completed with undefined
    points when the number of indices is not a multiple of 3. *)
Theorem triangulateWithEarcut_spec
        (earcut : list float -> list nat -> nat -> Result (list nat))
        (vertices : list float) (holes : list nat) :
  match earcut vertices holes 2 with
  | Throw e => triangulateWithEarcut earcut vertices holes = Throw e
  | Ok indices =>
      exists triangles,
        triangulateWithEarcut earcut vertices holes = Ok triangles
        /\ length triangles = (length indices + 2) / 3
        /\ Forall (fun tri => length tri = 3) triangles
        /\ concat triangles
           = map (vertexOf vertices) indices
             ++ repeat undefinedPoint (missingPoints (length indices))
  end.
Proof.
  unfold triangulateWithEarcut.
  destruct (earcut vertices holes 2) as [indices | e]; cbn [bindResult]; [| reflexivity].
  exists (trianglesOf vertices indices).
  destruct (trianglesOf_spec vertices indices) as [Hcount Hconcat].
  repeat split; [exact Hcount | apply trianglesOf_three | exact Hconcat].
Qed.

(** ** [decomposeWalkableArea] on valid input *)

Lemma in_concat_Forall {A : Type} (P : A -> Prop) (ls : list (list A)) :
  Forall P (concat ls) -> Forall (Forall P) ls.
Proof.
  intros Hall. apply List.Forall_forall. intros l Hl.
  apply List.Forall_forall. intros a Ha.
  rewrite List.Forall_forall in Hall. apply Hall, in_concat. now exists l.
Qed.

(** X11: on input that passes [validateInput], [decomposeWalkableArea] lets
    an exception of the triangulator through; otherwise it returns at most
    one polygon per started triple of indices, none when there is no index;
    and when the triangulator returns whole triples of indices of existing
    vertices, every vertex of every polygon returned is a point of the
    bounding box or of an obstacle. *)
Theorem decomposeWalkableArea_valid_input
        (earcut : list float -> list nat -> nat -> Result (list nat))
        (boundingBox : Polygon) (obstacles : list Polygon) :
  validateInput boundingBox obstacles = Ok tt ->
  let input := prepareEarcutInput boundingBox obstacles in
  match earcut (vertices input) (holes input) 2 with
  | Throw e => decomposeWalkableArea earcut boundingBox obstacles = Throw e
  | Ok indices =>
      exists polygons,
        decomposeWalkableArea earcut boundingBox obstacles = Ok polygons
        /\ length polygons <= (length indices + 2) / 3
        /\ (length indices mod 3 = 0 ->
            Forall (fun k => k < pointCount boundingBox obstacles) indices ->
            Forall (Forall (fun p => In p (boundingBox ++ concat obstacles))) polygons)
  end.
Proof.
  intros Hvalid input. subst input.
  unfold decomposeWalkableArea, triangulateWithEarcut. rewrite Hvalid. cbn [bindResult].
  destruct (earcut _ _ 2) as [indices | e]; cbn [bindResult]; [| reflexivity].
  set (vs := vertices (prepareEarcutInput boundingBox obstacles)).
  destruct (trianglesOf_spec vs indices) as [Hcount Hconcat].
  destruct (merged_polygons_from_triangles_aux (trianglesOf vs indices)) as [Hlen Hgrown].
  eexists. split; [reflexivity |]. split; [now rewrite <- Hcount |].
  intros Hwhole Hrange.
  eapply List.Forall_impl; [| exact Hgrown].
  intros poly [_ Hfrom].
  eapply List.Forall_impl; [| exact Hfrom].
  intros p Hp. rewrite Hconcat in Hp. unfold missingPoints in Hp.
  rewrite Hwhole in Hp. cbn [Nat.sub Nat.modulo repeat] in Hp.
  change ((3 - 0) mod 3) with 0 in Hp. cbn [repeat] in Hp. rewrite app_nil_r in Hp.
  apply in_map_iff in Hp as (k & <- & Hk).
  rewrite List.Forall_forall in Hrange. specialize (Hrange k Hk).
  subst vs. rewrite prepareEarcutInput_eq. cbn [vertices].
  rewrite vertexOf_coordsOf. unfold at_index. apply nth_In.
  unfold pointCount in Hrange. now rewrite length_app.
Qed.

(** The box cut along a diagonal. *)
Lemma decomposeWalkableArea_valid_input_witness :
  validateInput sampleBox [] = Ok tt
  /\ exists polygons,
       decomposeWalkableArea (fun _ _ _ => Ok [0; 1; 2; 0; 2; 3]) sampleBox [] = Ok polygons
       /\ length polygons <= (length [0; 1; 2; 0; 2; 3] + 2) / 3.
Proof.
  split; [reflexivity |].
  destruct (decomposeWalkableArea_valid_input (fun _ _ _ => Ok [0; 1; 2; 0; 2; 3])
              sampleBox [] eq_refl) as (polygons & Hok & Hlen & _).
  exists polygons. now split.
Defined.

(** ** Validated input and the hole start indices *)

Lemma holeStarts_bounds (vertexOffset : nat) (obstacles : list Polygon) :
  Forall (fun obstacle => 3 <= length obstacle) obstacles ->
  StronglySorted lt (holeStarts vertexOffset obstacles)
  /\ Forall (fun h => vertexOffset <= h /\ h + 3 <= vertexOffset + length (concat obstacles))
            (holeStarts vertexOffset obstacles).
Proof.
  intros Hall. revert vertexOffset.
  induction Hall as [| obstacle rest Hlen Hrest IH]; intros vertexOffset;
    cbn [holeStarts concat].
  - split; constructor.
  - destruct (IH (vertexOffset + length obstacle)) as [Hsorted Hbounds].
    rewrite length_app. split.
    + constructor; [exact Hsorted |].
      eapply List.Forall_impl; [| exact Hbounds]. cbn beta. intros h [Hh _]. lia.
    + constructor; [lia |].
      eapply List.Forall_impl; [| exact Hbounds]. cbn beta. intros h [Hh1 Hh2]. lia.
Qed.

(** X12: for input that passes [validateInput], the hole start indices built
    by [prepareEarcutInput] are strictly increasing, start at 4 or later,
    and each leaves room for at least 3 vertices before the end of the
    buffer; there is none when there is no obstacle. *)
Theorem validated_hole_starts (boundingBox : Polygon) (obstacles : list Polygon) :
  validateInput boundingBox obstacles = Ok tt ->
  let input := prepareEarcutInput boundingBox obstacles in
  StronglySorted lt (holes input)
  /\ Forall (fun h => 4 <= h /\ 2 * (h + 3) <= length (vertices input)) (holes input)
  /\ length (holes input) = length obstacles
  /\ (obstacles = [] -> holes input = [] /\ length (vertices input) = 8).
Proof.
  intros [Hbb Hall]%validateInput_Ok input. subst input.
  rewrite prepareEarcutInput_eq. cbn [vertices holes].
  destruct (holeStarts_bounds (length boundingBox) obstacles) as [Hsorted Hbounds].
  { eapply List.Forall_impl; [| exact Hall]. intros obstacle [Hlen _]. exact Hlen. }
  split; [exact Hsorted |]. split; [| split; [apply holeStarts_length |]].
  - eapply List.Forall_impl; [| exact Hbounds]. cbn beta. intros h [Hh1 Hh2].
    rewrite coordsOf_length, length_app. lia.
  - intros ->. cbn [holeStarts concat]. rewrite app_nil_r, coordsOf_length, Hbb.
    split; reflexivity.
Qed.

(** The sample box with two 3-point obstacles. *)
Lemma validated_hole_starts_witness :
  validateInput sampleBox [triangleABC; diagonalTriangle] = Ok tt
  /\ StronglySorted lt (holes (prepareEarcutInput sampleBox [triangleABC; diagonalTriangle])).
Proof.
  split; [reflexivity |].
  exact (proj1 (validated_hole_starts sampleBox [triangleABC; diagonalTriangle] eq_refl)).
Defined.

(** ** [isConvex] does not depend on the starting vertex *)

Lemma isConvex_signVerdict (poly : Polygon) :
  isConvex poly
  = if (length poly <? 3)%nat then false
    else signVerdict (map (crossAt poly) (seq 0 (length poly))).
Proof.
  unfold isConvex, signVerdict. destruct (length poly <? 3)%nat; [reflexivity |].
  apply isConvex_loop_untracked.
Qed.

(** A number that is neither zero, nor positive, nor negative is equal to
    no number. *)
Lemma unordered_never_equal (v w : float) :
  (v =? 0)%float = false -> (0 <? v)%float = false -> (v <? 0)%float = false ->
  (w =? v)%float = false /\ (v =? w)%float = false.
Proof.
  rewrite !FloatAxioms.eqb_spec, !FloatAxioms.ltb_spec.
  change (Prim2SF 0) with (S754_zero false).
  destruct (Prim2SF v) as [s | s | | s m e]; cbn.
  - discriminate.
  - destruct s; discriminate.
  - intros _ _ _. split; [now destruct (Prim2SF w) | reflexivity].
  - destruct s; discriminate.
Qed.

(** The sign of a nonzero number is 1, -1, or equal to nothing. *)
Lemma Math_sign_cases (v : float) :
  strict_ne v 0 = true ->
  Math_sign v = 1%float \/ Math_sign v = (-1)%float
  \/ (forall w, (w =? Math_sign v)%float = false /\ (Math_sign v =? w)%float = false).
Proof.
  unfold strict_ne, Math_sign. intros Hnz%negb_true_iff.
  destruct (0 <? v)%float eqn:Hpos; [now left |].
  destruct (v <? 0)%float eqn:Hneg; [right; now left |].
  right. right. intros w. now apply unordered_never_equal.
Qed.

(** The verdict read as a property of the whole list. *)
Lemma signVerdict_oneSign (crosses : list float) :
  signVerdict crosses = oneSign (List.filter (fun c => strict_ne c 0) crosses).
Proof.
  unfold signVerdict.
  assert (Hnz : Forall (fun c => strict_ne c 0 = true)
                       (List.filter (fun c => strict_ne c 0) crosses)).
  { apply List.Forall_forall. intros c Hc. now apply filter_In in Hc. }
  destruct (List.filter (fun c => strict_ne c 0) crosses) as [| first later];
    [reflexivity |].
  inversion Hnz as [| ? ? Hfirst _]; subst.
  assert (Hlater : negb (existsb (fun c => signDiffers c first) later)
                   = forallb (hasSign (Math_sign first)) later).
  { clear. induction later as [| c rest IH]; [reflexivity |].
    cbn [existsb forallb]. rewrite negb_orb, IH. f_equal.
    unfold signDiffers, strict_ne, hasSign. apply negb_involutive. }
  rewrite Hlater. unfold oneSign. cbn [length forallb].
  destruct (Math_sign_cases first Hfirst) as [Hs | [Hs | Hs]].
  - unfold hasSign at 2 4. rewrite Hs.
    change (1 =? 1)%float with true. change (1 =? -1)%float with false.
    cbn [andb]. rewrite orb_false_r. destruct later; reflexivity.
  - unfold hasSign at 2 4. rewrite Hs.
    change (-1 =? 1)%float with false. change (-1 =? -1)%float with true.
    cbn [andb]. rewrite orb_false_r. destruct later; reflexivity.
  - unfold hasSign at 2 4.
    rewrite (proj2 (Hs 1%float)), (proj2 (Hs (-1)%float)). cbn [andb].
    rewrite !orb_false_r.
    destruct later as [| c rest]; [reflexivity |].
    cbn [forallb length]. unfold hasSign at 1. rewrite (proj1 (Hs (Math_sign c))).
    reflexivity.
Qed.

Lemma oneSign_app_comm (l1 l2 : list float) : oneSign (l1 ++ l2) = oneSign (l2 ++ l1).
Proof.
  unfold oneSign. rewrite !length_app, !forallb_app.
  rewrite (Nat.add_comm (length l1)), (andb_comm (forallb (hasSign 1) l1)),
    (andb_comm (forallb (hasSign (-1)) l1)).
  reflexivity.
Qed.

Lemma signVerdict_app_comm (l1 l2 : list float) :
  signVerdict (l1 ++ l2) = signVerdict (l2 ++ l1).
Proof. rewrite !signVerdict_oneSign, !List.filter_app. apply oneSign_app_comm. Qed.

(** Reading the rotated polygon. *)
Lemma at_index_rotated (l1 l2 : Polygon) (j : nat) :
  j < length (l1 ++ l2) ->
  at_index (l2 ++ l1) j = at_index (l1 ++ l2) ((j + length l1) mod length (l1 ++ l2)).
Proof.
  rewrite length_app. intros Hj. unfold at_index.
  destruct (le_lt_dec (length l2) j) as [Hge | Hlt].
  - rewrite app_nth2 by exact Hge.
    replace (j + length l1) with ((j - length l2) + 1 * (length l1 + length l2)) by lia.
    rewrite Nat.Div0.mod_add, Nat.mod_small by lia.
    now rewrite app_nth1 by lia.
  - rewrite app_nth1 by exact Hlt.
    rewrite Nat.mod_small by lia.
    rewrite app_nth2 by lia. f_equal. lia.
Qed.

Lemma crossAt_rotated (l1 l2 : Polygon) (i : nat) :
  i < length (l1 ++ l2) ->
  crossAt (l2 ++ l1) i = crossAt (l1 ++ l2) ((i + length l1) mod length (l1 ++ l2)).
Proof.
  intros Hi. unfold crossAt.
  assert (Hlen : length (l2 ++ l1) = length (l1 ++ l2)) by (rewrite !length_app; lia).
  rewrite Hlen.
  assert (Hn : length (l1 ++ l2) <> 0) by lia.
  rewrite (at_index_rotated l1 l2 i) by exact Hi.
  rewrite (at_index_rotated l1 l2 ((i + 1) mod length (l1 ++ l2)))
    by (apply Nat.mod_upper_bound; exact Hn).
  rewrite (at_index_rotated l1 l2 ((i + 2) mod length (l1 ++ l2)))
    by (apply Nat.mod_upper_bound; exact Hn).
  rewrite !Nat.Div0.add_mod_idemp_l.
  replace (i + 1 + length l1) with (i + length l1 + 1) by lia.
  replace (i + 2 + length l1) with (i + length l1 + 2) by lia.
  reflexivity.
Qed.

Lemma map_add_seq (a start len : nat) :
  map (fun i => i + a) (seq start len) = seq (start + a) len.
Proof.
  revert start. induction len as [| len IH]; intros start; [reflexivity |].
  cbn [seq map]. f_equal. apply (IH (S start)).
Qed.

Lemma rotated_indices (a b : nat) :
  map (fun i => (i + a) mod (a + b)) (seq 0 (a + b)) = seq a b ++ seq 0 a.
Proof.
  replace (seq 0 (a + b)) with (seq 0 b ++ seq b a)
    by (rewrite (Nat.add_comm a b); symmetry; apply seq_app).
  rewrite map_app. f_equal.
  - change (seq a b) with (seq (0 + a) b). rewrite <- (map_add_seq a 0 b).
    apply map_ext_in. intros i Hi%in_seq. apply Nat.mod_small. lia.
  - change (seq b a) with (seq (0 + b) a). rewrite <- (map_add_seq b 0 a), map_map.
    rewrite <- (map_id (seq 0 a)) at 2.
    apply map_ext_in. intros i Hi%in_seq.
    replace (i + b + a) with (i + 1 * (a + b)) by lia.
    rewrite Nat.Div0.mod_add. apply Nat.mod_small. lia.
Qed.

(** X13: [isConvex] gives the same answer whichever vertex the polygon is
    listed from: moving a first part of the vertex list behind the rest does
    not change it. *)
Theorem isConvex_rotation (l1 l2 : Polygon) : isConvex (l2 ++ l1) = isConvex (l1 ++ l2).
Proof.
  rewrite !isConvex_signVerdict.
  assert (Hlen : length (l2 ++ l1) = length (l1 ++ l2)) by (rewrite !length_app; lia).
  rewrite Hlen. destruct (length (l1 ++ l2) <? 3)%nat; [reflexivity |].
  rewrite (map_ext_in (crossAt (l2 ++ l1))
             (fun i => crossAt (l1 ++ l2) ((i + length l1) mod length (l1 ++ l2))))
    by (intros i Hi%in_seq; apply crossAt_rotated; lia).
  rewrite <- (map_map (fun i => (i + length l1) mod length (l1 ++ l2)) (crossAt (l1 ++ l2))).
  rewrite length_app, rotated_indices, map_app, signVerdict_app_comm, <- map_app.
  now rewrite <- seq_app.
Qed.

(** ** [isConvex] does not depend on the direction of the vertex list

    First, in the specification of binary64: exchanging the operands of a
    subtraction gives the opposite result, up to the sign of a zero, and
    the sign of a zero operand is of no consequence for a subtraction or a
    product, up to the sign of a zero result. *)

Section OppositeResults.

Variables prec emax : Z.

Lemma binary_round_aux_negb (s : bool) (m e : Z) (l : location) :
  binary_round_aux prec emax (negb s) m e l = SFopp (binary_round_aux prec emax s m e l).
Proof.
  unfold binary_round_aux.
  destruct (shr_fexp prec emax m e l) as [mrs' e'].
  destruct (shr_fexp prec emax _ e' loc_Exact) as [mrs'' e''].
  destruct (shr_m mrs''); try reflexivity.
  destruct (Z.leb e'' (emax - prec)); reflexivity.
Qed.

Lemma binary_normalize_opp (m e : Z) :
  SFunsignedZero (binary_normalize prec emax (- m) e false)
  = SFunsignedZero (SFopp (binary_normalize prec emax m e false)).
Proof.
  destruct m as [| p | p]; [reflexivity | |].
  - change (- Z.pos p)%Z with (Z.neg p). cbn [binary_normalize]. unfold binary_round.
    destruct (shl_align p e _) as [mz ez].
    change true with (negb false). now rewrite binary_round_aux_negb.
  - change (- Z.neg p)%Z with (Z.pos p). cbn [binary_normalize]. unfold binary_round.
    destruct (shl_align p e _) as [mz ez].
    change false with (negb true) at 1. now rewrite binary_round_aux_negb.
Qed.

Lemma SFsub_exchange (u v : spec_float) :
  SFunsignedZero (SFsub prec emax u v) = SFunsignedZero (SFopp (SFsub prec emax v u)).
Proof.
  destruct u as [su | su | | su mu eu], v as [sv | sv | | sv mv ev];
    try reflexivity;
    try (destruct su, sv; reflexivity);
    try (destruct sv; reflexivity);
    try (destruct su; reflexivity).
  unfold SFsub. rewrite (Z.min_comm ev eu), <- binary_normalize_opp.
  do 2 f_equal. lia.
Qed.

Lemma SFsub_unsignedZero (u v : spec_float) :
  SFunsignedZero (SFsub prec emax u v)
  = SFunsignedZero (SFsub prec emax (SFunsignedZero u) (SFunsignedZero v)).
Proof.
  destruct u as [su | su | | su mu eu], v as [sv | sv | | sv mv ev];
    try reflexivity; destruct su; try destruct sv; reflexivity.
Qed.

Lemma SFmul_unsignedZero (u v : spec_float) :
  SFunsignedZero (SFmul prec emax u v)
  = SFunsignedZero (SFmul prec emax (SFunsignedZero u) (SFunsignedZero v)).
Proof.
  destruct u as [su | su | | su mu eu], v as [sv | sv | | sv mv ev]; reflexivity.
Qed.

Lemma SFmul_opp_opp (u v : spec_float) :
  SFmul prec emax (SFopp u) (SFopp v) = SFmul prec emax u v.
Proof.
  destruct u as [su | su | | su mu eu], v as [sv | sv | | sv mv ev];
    try reflexivity; destruct su, sv; reflexivity.
Qed.

Lemma SFmul_comm (u v : spec_float) : SFmul prec emax u v = SFmul prec emax v u.
Proof.
  destruct u as [su | su | | su mu eu], v as [sv | sv | | sv mv ev];
    try reflexivity; cbn [SFmul]; rewrite ?(xorb_comm su sv); try reflexivity.
  now rewrite (Pos.mul_comm mu mv), (Z.add_comm eu ev).
Qed.

End OppositeResults.

Lemma SFunsignedZero_opp (u : spec_float) :
  SFunsignedZero (SFopp (SFunsignedZero u)) = SFunsignedZero (SFopp u).
Proof. now destruct u. Qed.

Lemma SFunsignedZero_idem (u : spec_float) :
  SFunsignedZero (SFunsignedZero u) = SFunsignedZero u.
Proof. now destruct u. Qed.

(** [w - v] is the opposite of [v - w]. *)
Lemma sub_oppositeOf (v w : float) : oppositeOf (w - v) (v - w).
Proof.
  unfold oppositeOf. rewrite !FloatAxioms.sub_spec. apply SFsub_exchange.
Qed.

(** The product of two opposites is the product, up to the sign of zero. *)
Lemma mul_oppositeOf (v v' w w' : float) :
  oppositeOf v' v -> oppositeOf w' w ->
  SFunsignedZero (Prim2SF (v' * w')) = SFunsignedZero (Prim2SF (w * v)).
Proof.
  unfold oppositeOf. intros Hv Hw. rewrite !FloatAxioms.mul_spec. unfold SF64mul.
  rewrite SFmul_unsignedZero, Hv, Hw, <- SFmul_unsignedZero, SFmul_opp_opp.
  now rewrite SFmul_comm.
Qed.

(** The cross product at a vertex triple read backwards is the opposite of
    the cross product at the triple. *)
Lemma cross_reversed (a b c : Point) : oppositeOf (cross c b a) (cross a b c).
Proof.
  unfold oppositeOf, cross.
  rewrite (FloatAxioms.sub_spec ((x b - x c) * (y a - y b))).
  unfold SF64sub. rewrite SFsub_unsignedZero.
  rewrite (mul_oppositeOf (x c - x b) (x b - x c) (y b - y a) (y a - y b))
    by apply sub_oppositeOf.
  rewrite (mul_oppositeOf (y c - y b) (y b - y c) (x b - x a) (x a - x b))
    by apply sub_oppositeOf.
  rewrite <- SFsub_unsignedZero, SFsub_exchange, <- FloatAxioms.sub_spec.
  reflexivity.
Qed.

(** The sign tests of [isConvex], read as comparisons with zero. *)
Lemma hasSign_positive (c : float) : hasSign 1 c = (0 <? c)%float.
Proof.
  unfold hasSign, Math_sign.
  destruct (0 <? c)%float eqn:Hpos; [reflexivity |].
  destruct (c <? 0)%float eqn:Hneg; [reflexivity |].
  revert Hpos Hneg. rewrite FloatAxioms.eqb_spec, !FloatAxioms.ltb_spec.
  change (Prim2SF 0) with (S754_zero false).
  change (Prim2SF 1) with (S754_finite false 4503599627370496 (-52)).
  destruct (Prim2SF c) as [s | s | | s m e]; try reflexivity;
    destruct s; intros Hpos Hneg; discriminate.
Qed.

Lemma hasSign_negative (c : float) : hasSign (-1) c = (c <? 0)%float.
Proof.
  unfold hasSign, Math_sign.
  destruct (0 <? c)%float eqn:Hpos.
  - revert Hpos. rewrite !FloatAxioms.ltb_spec.
    change (Prim2SF 0) with (S754_zero false).
    change (1 =? -1)%float with false.
    destruct (Prim2SF c) as [s | s | | s m e]; try discriminate;
      destruct s; try discriminate; reflexivity.
  - destruct (c <? 0)%float eqn:Hneg; [reflexivity |].
    revert Hpos Hneg. rewrite FloatAxioms.eqb_spec, !FloatAxioms.ltb_spec.
    change (Prim2SF 0) with (S754_zero false).
    change (Prim2SF (-1)) with (S754_finite true 4503599627370496 (-52)).
    destruct (Prim2SF c) as [s | s | | s m e]; try reflexivity;
      destruct s; intros Hpos Hneg; discriminate.
Qed.

(** Opposite numbers are zero together and have opposite signs. *)
Lemma oppositeOf_tests (v w : float) :
  oppositeOf v w ->
  strict_ne v 0 = strict_ne w 0
  /\ hasSign 1 v = hasSign (-1) w
  /\ hasSign (-1) v = hasSign 1 w.
Proof.
  unfold oppositeOf, strict_ne. rewrite !hasSign_positive, !hasSign_negative.
  rewrite !FloatAxioms.eqb_spec, !FloatAxioms.ltb_spec.
  change (Prim2SF 0) with (S754_zero false).
  destruct (Prim2SF v) as [sv | sv | | sv mv ev], (Prim2SF w) as [sw | sw | | sw mw ew];
    cbn [SFunsignedZero SFopp]; intros Hopp; try discriminate Hopp;
    try (repeat split; reflexivity);
    injection Hopp as ->; subst; destruct sw; repeat split; reflexivity.
Qed.

Lemma signSummary_cons (c : float) (crosses : list float) :
  signSummary (c :: crosses)
  = (S (fst (fst (signSummary crosses))),
     hasSign 1 c && snd (fst (signSummary crosses)),
     hasSign (-1) c && snd (signSummary crosses)).
Proof. reflexivity. Qed.

Lemma oneSign_signSummary (crosses : list float) :
  oneSign crosses
  = (fst (fst (signSummary crosses)) <=? 1)%nat
    || snd (fst (signSummary crosses)) || snd (signSummary crosses).
Proof. reflexivity. Qed.

(** The summary does not depend on the order of the numbers. *)
Lemma signSummary_permutation (l1 l2 : list float) :
  Permutation l1 l2 ->
  signSummary (List.filter (fun c => strict_ne c 0) l1)
  = signSummary (List.filter (fun c => strict_ne c 0) l2).
Proof.
  induction 1 as [| c l1 l2 _ IH | c d l | l1 l2 l3 _ IH1 _ IH2].
  - reflexivity.
  - cbn [List.filter]. destruct (strict_ne c 0); [| exact IH].
    now rewrite !signSummary_cons, IH.
  - cbn [List.filter]. destruct (strict_ne c 0), (strict_ne d 0); try reflexivity.
    unfold signSummary. cbn [length forallb].
    destruct (hasSign 1 c), (hasSign 1 d), (hasSign (-1) c), (hasSign (-1) d);
      reflexivity.
  - now rewrite IH1.
Qed.

(** Taking opposites exchanges the two sign tests of the summary. *)
Lemma signSummary_opposites (l1 l2 : list float) :
  Forall2 oppositeOf l1 l2 ->
  signSummary (List.filter (fun c => strict_ne c 0) l1)
  = (fst (fst (signSummary (List.filter (fun c => strict_ne c 0) l2))),
     snd (signSummary (List.filter (fun c => strict_ne c 0) l2)),
     snd (fst (signSummary (List.filter (fun c => strict_ne c 0) l2)))).
Proof.
  induction 1 as [| v w l1 l2 Hvw _ IH]; [reflexivity |].
  destruct (oppositeOf_tests v w Hvw) as (Hnz & Hpos & Hneg).
  cbn [List.filter]. rewrite Hnz. destruct (strict_ne w 0); [| exact IH].
  rewrite !signSummary_cons, IH. cbn [fst snd]. now rewrite Hpos, Hneg.
Qed.

Lemma Forall2_map_seq {A B : Type} (R : A -> B -> Prop) (f : nat -> A) (g : nat -> B)
      (idxs : list nat) :
  (forall i, In i idxs -> R (f i) (g i)) -> Forall2 R (map f idxs) (map g idxs).
Proof.
  induction idxs as [| i rest IH]; intros Hall; cbn [map]; constructor.
  - apply Hall. now left.
  - apply IH. intros j Hj. apply Hall. now right.
Qed.

Lemma NoDup_map_in {A B : Type} (f : A -> B) (l : list A) :
  (forall a b, In a l -> In b l -> f a = f b -> a = b) ->
  List.NoDup l -> List.NoDup (map f l).
Proof.
  intros Hinj Hnodup. induction Hnodup as [| a rest Hnotin Hrest IH]; cbn [map];
    constructor.
  - intros Hin. apply in_map_iff in Hin as (b & Hfb & Hb).
    apply Hnotin. rewrite (Hinj a b); [exact Hb | now left | now right | now symmetry].
  - apply IH. intros a' b' Ha' Hb'. apply Hinj; now right.
Qed.

(** The reversed polygon goes through every vertex triple once. *)
Lemma reversedIndex_permutation (n : nat) :
  3 <= n -> Permutation (map (reversedIndex n) (seq 0 n)) (seq 0 n).
Proof.
  intros Hn. apply Permutation.NoDup_Permutation.
  - apply NoDup_map_in; [| apply seq_NoDup].
    intros a b Ha%in_seq Hb%in_seq. unfold reversedIndex.
    destruct (Nat.leb_spec (a + 3) n), (Nat.leb_spec (b + 3) n); lia.
  - apply seq_NoDup.
  - intros k. rewrite in_map_iff, in_seq. split.
    + intros (i & <- & Hi%in_seq). unfold reversedIndex.
      destruct (Nat.leb_spec (i + 3) n); lia.
    + intros Hk. destruct (le_lt_dec (k + 3) n) as [Hle | Hgt].
      * exists (n - 3 - k). rewrite in_seq. unfold reversedIndex.
        destruct (Nat.leb_spec (n - 3 - k + 3) n); split; lia.
      * exists (2 * n - 3 - k). rewrite in_seq. unfold reversedIndex.
        destruct (Nat.leb_spec (2 * n - 3 - k + 3) n); split; lia.
Qed.

Lemma at_index_rev (poly : Polygon) (j : nat) :
  j < length poly -> at_index (rev poly) j = at_index poly (length poly - 1 - j).
Proof.
  intros Hj. unfold at_index. rewrite rev_nth by exact Hj. f_equal. lia.
Qed.

(** The cross product of the reversed polygon at [i] is the opposite of the
    cross product of the polygon at [reversedIndex n i]. *)
Lemma crossAt_rev (poly : Polygon) (i : nat) :
  3 <= length poly -> i < length poly ->
  oppositeOf (crossAt (rev poly) i) (crossAt poly (reversedIndex (length poly) i)).
Proof.
  intros Hn Hi. unfold crossAt. rewrite length_rev.
  set (n := length poly) in *.
  assert (Hmod : forall k, k < n -> (k + n) mod n = k).
  { intros k Hk. replace (k + n) with (k + 1 * n) by lia.
    rewrite Nat.Div0.mod_add. now apply Nat.mod_small. }
  assert (Hread : forall j, at_index (rev poly) (j mod n) = at_index poly (n - 1 - j mod n)).
  { intros j. apply at_index_rev. apply Nat.mod_upper_bound. lia. }
  rewrite !Hread. rewrite (at_index_rev poly i) by exact Hi. fold n.
  unfold reversedIndex.
  destruct (Nat.leb_spec (i + 3) n) as [Hle | Hgt].
  - rewrite !(Nat.mod_small (i + _)) by lia.
    rewrite !(Nat.mod_small (n - 3 - i + _)) by lia.
    replace (n - 1 - i) with (n - 3 - i + 2) by lia.
    replace (n - 1 - (i + 1)) with (n - 3 - i + 1) by lia.
    replace (n - 1 - (i + 2)) with (n - 3 - i) by lia.
    apply cross_reversed.
  - destruct (Nat.eq_dec i (n - 2)) as [-> | Hne].
    + replace (n - 2 + 1) with (n - 1) by lia.
      replace (n - 2 + 2) with n by lia.
      replace (2 * n - 3 - (n - 2)) with (n - 1) by lia.
      replace (n - 1 + 1) with n by lia.
      replace (n - 1 + 2) with (1 + n) by lia.
      rewrite Nat.Div0.mod_same, (Hmod 1), (Nat.mod_small (n - 1)) by lia.
      replace (n - 1 - (n - 2)) with 1 by lia.
      replace (n - 1 - (n - 1)) with 0 by lia.
      replace (n - 1 - 0) with (n - 1) by lia.
      apply cross_reversed.
    + assert (Hi' : i = n - 1) by lia. subst i.
      replace (n - 1 + 1) with n by lia.
      replace (n - 1 + 2) with (1 + n) by lia.
      replace (2 * n - 3 - (n - 1)) with (n - 2) by lia.
      replace (n - 2 + 1) with (n - 1) by lia.
      replace (n - 2 + 2) with n by lia.
      rewrite Nat.Div0.mod_same, (Hmod 1), (Nat.mod_small (n - 1)) by lia.
      replace (n - 1 - (n - 1)) with 0 by lia.
      replace (n - 1 - 0) with (n - 1) by lia.
      replace (n - 1 - 1) with (n - 2) by lia.
      apply cross_reversed.
Qed.

(** X14: [isConvex] gives the same answer for a polygon and for the polygon
    listed in the opposite direction. *)
Theorem isConvex_reversal (poly : Polygon) : isConvex (rev poly) = isConvex poly.
Proof.
  rewrite !isConvex_signVerdict, length_rev.
  destruct (Nat.ltb_spec (length poly) 3) as [Hlt | Hge]; [reflexivity |].
  rewrite !signVerdict_oneSign, !oneSign_signSummary.
  rewrite (signSummary_opposites
             (map (crossAt (rev poly)) (seq 0 (length poly)))
             (map (fun i => crossAt poly (reversedIndex (length poly) i))
                  (seq 0 (length poly)))).
  - rewrite <- (map_map (reversedIndex (length poly)) (crossAt poly)).
    rewrite (signSummary_permutation
               (map (crossAt poly) (map (reversedIndex (length poly)) (seq 0 (length poly))))
               (map (crossAt poly) (seq 0 (length poly))))
      by (apply Permutation_map, reversedIndex_permutation; exact Hge).
    destruct (signSummary _) as [[n pos] neg]. cbn [fst snd].
    destruct (n <=? 1)%nat, pos, neg; reflexivity.
  - apply Forall2_map_seq. intros i Hi%in_seq. apply crossAt_rev; lia.
Qed.

(** ** Integer coordinates: the computations of the module are exact *)

(** A binary64 number that holds a nonzero integer has an exponent of at
    least -52. *)
Lemma isInt_exponent (u : float) (z : Z) (s : bool) (m : positive) (e : Z) :
  isInt u z -> Prim2SF u = S754_finite s m e -> (-52 <= e)%Z /\ z <> 0%Z.
Proof.
  unfold isInt. intros Hint Hu. pose proof (Prim2SF_valid u) as Hvalid.
  rewrite Hu in Hint, Hvalid. cbn [SFint] in Hint. destruct Hint as [He Hval].
  unfold valid_binary, SpecFloat.valid_binary, bounded, canonical_mantissa, fexp, emin in Hvalid.
  apply andb_true_iff in Hvalid as [Hcanon _]. apply Z.eqb_eq in Hcanon.
  change (Zpos (digits2_pos m)) with (Zdigits2 (Zpos m)) in Hcanon.
  change prec with 53%Z in Hcanon. change emax with 1024%Z in Hcanon.
  assert (Hpow : (0 < 2 ^ (- e))%Z) by (apply Z.pow_pos_nonneg; lia).
  assert (Hz : z <> 0%Z) by (intros ->; destruct s; cbn [cond_Zopp] in Hval; lia).
  split; [| exact Hz].
  assert (Hm : Zpos m = (Z.abs z * 2 ^ (- e))%Z).
  { destruct s; cbn [cond_Zopp] in Hval; nia. }
  assert (Hdigits : (Zdigits2 (Zpos m) = Zdigits2 (Z.abs z) + - e)%Z).
  { rewrite Hm. apply Zdigits2_shift; lia. }
  assert (Hone : (1 <= Zdigits2 (Z.abs z))%Z).
  { rewrite Zdigits2_log2 by lia. pose proof (Z.log2_nonneg (Z.abs z)). lia. }
  lia.
Qed.

(** The distance test of [pointsEqual] on an integer: only zero passes. *)
Lemma isInt_below_tolerance (d : float) (z : Z) :
  isInt d z -> (abs d <? tolerance)%float = (z =? 0)%Z.
Proof.
  intros Hint. rewrite FloatAxioms.ltb_spec, FloatAxioms.abs_spec.
  change (Prim2SF tolerance) with (S754_finite false 4722366482869645 (-72)).
  destruct (Prim2SF d) as [s | s | | s m e] eqn:Hd.
  - unfold isInt in Hint. rewrite Hd in Hint. cbn [SFint] in Hint. subst z. reflexivity.
  - unfold isInt in Hint. rewrite Hd in Hint. contradiction.
  - unfold isInt in Hint. rewrite Hd in Hint. contradiction.
  - destruct (isInt_exponent d z s m e Hint Hd) as [He Hz].
    cbn [SFabs]. unfold SFltb, SFcompare.
    destruct (Z.compare_spec e (-72)); lia.
Qed.

Lemma closeTo_integers (u w : float) (zu zw : Z) :
  isInt u zu -> isInt w zw -> (Z.abs (zu - zw) < 2 ^ 53)%Z ->
  closeTo u w = (zu =? zw)%Z.
Proof.
  intros Hu Hw Hbound. unfold closeTo.
  rewrite (isInt_below_tolerance (u - w) (zu - zw)) by now apply sub_isInt.
  destruct (Z.eqb_spec (zu - zw) 0), (Z.eqb_spec zu zw); try reflexivity; lia.
Qed.

(** X15: on points with integer coordinates (differences below [2^53]) the
    tolerance comparison [pointsEqual] is the equality of the coordinates. *)
Theorem pointsEqual_integer_points (a b : Point) (ax ay bx by_ : Z) :
  isInt (x a) ax -> isInt (y a) ay -> isInt (x b) bx -> isInt (y b) by_ ->
  (Z.abs (ax - bx) < 2 ^ 53)%Z -> (Z.abs (ay - by_) < 2 ^ 53)%Z ->
  pointsEqual a b = (ax =? bx)%Z && (ay =? by_)%Z.
Proof.
  intros Hax Hay Hbx Hby Hdx Hdy.
  change (pointsEqual a b) with (closeTo (x a) (x b) && closeTo (y a) (y b)).
  now rewrite (closeTo_integers _ _ ax bx), (closeTo_integers _ _ ay by_).
Qed.

Lemma pointsEqual_integer_points_witness :
  pointsEqual (pt 3 4) (pt 3 5) = (3 =? 3)%Z && (4 =? 5)%Z.
Proof.
  apply pointsEqual_integer_points; vm_compute; try reflexivity;
    (split; [discriminate | reflexivity]).
Defined.

(** The sign tests of [isConvex] on an integer. *)
Lemma isInt_hasSign (c : float) (z : Z) :
  isInt c z -> hasSign 1 c = (0 <? z)%Z /\ hasSign (-1) c = (z <? 0)%Z.
Proof.
  rewrite hasSign_positive, hasSign_negative, !FloatAxioms.ltb_spec.
  change (Prim2SF 0) with (S754_zero false).
  unfold isInt. destruct (Prim2SF c) as [s | s | | s m e]; cbn [SFint];
    try contradiction.
  - intros ->. split; reflexivity.
  - intros Hint. apply SFint_finite_sign in Hint.
    destruct s; unfold SFltb, SFcompare; split; lia.
Qed.

Lemma Forall2_at {A B : Type} (R : A -> B -> Prop) (l1 : list A) (l2 : list B)
      (d1 : A) (d2 : B) (i : nat) :
  Forall2 R l1 l2 -> i < length l1 -> R (nth i l1 d1) (nth i l2 d2).
Proof.
  intros Hall. revert i. induction Hall as [| a b l1 l2 Hab _ IH]; intros i Hi.
  - cbn in Hi. lia.
  - destruct i as [| i]; [exact Hab |]. cbn [nth]. apply IH. cbn in Hi. lia.
Qed.

(** On grid points every cross product of [isConvex] is the integer cross
    product. *)
Lemma crossAt_grid (poly : Polygon) (zs : list (Z * Z)) (i : nat) :
  Forall2 gridCoords poly zs -> i < length poly ->
  isInt (crossAt poly i) (crossAtZ zs i).
Proof.
  intros Hgrid Hi. pose proof (Forall2_length _ _ _ Hgrid) as Hlen.
  assert (Hat : forall j, j < length poly ->
                          gridCoords (at_index poly j) (nth j zs (0, 0)%Z)).
  { intros j Hj. unfold at_index. now apply Forall2_at. }
  unfold crossAt, crossAtZ. rewrite <- Hlen.
  destruct (Hat i Hi) as (Hax & Hay & Bax & Bay).
  destruct (Hat ((i + 1) mod length poly)) as (Hbx & Hby & Bbx & Bby);
    [apply Nat.mod_upper_bound; lia |].
  destruct (Hat ((i + 2) mod length poly)) as (Hcx & Hcy & Bcx & Bcy);
    [apply Nat.mod_upper_bound; lia |].
  now apply cross_isInt.
Qed.

(** The sign tests over the nonzero cross products, on integers. *)
Lemma forallb_hasSign_integers (crosses : list float) (zs : list Z) :
  Forall2 isInt crosses zs ->
  forallb (hasSign 1) (List.filter (fun c => strict_ne c 0) crosses)
  = forallb (fun z => (0 <=? z)%Z) zs
  /\ forallb (hasSign (-1)) (List.filter (fun c => strict_ne c 0) crosses)
     = forallb (fun z => (z <=? 0)%Z) zs.
Proof.
  induction 1 as [| c z crosses zs Hcz _ [IHpos IHneg]]; [split; reflexivity |].
  cbn [List.filter forallb]. rewrite (isInt_strict_ne c z Hcz).
  destruct (isInt_hasSign c z Hcz) as [Hpos Hneg].
  destruct (Z.eqb_spec z 0) as [-> | Hz]; cbn [negb].
  - rewrite IHpos, IHneg. split; reflexivity.
  - cbn [forallb]. rewrite IHpos, IHneg, Hpos, Hneg. split; f_equal; lia.
Qed.

(** With no nonzero cross product, both integer tests pass. *)
Lemma no_nonzero_integers (crosses : list float) (zs : list Z) :
  Forall2 isInt crosses zs ->
  List.filter (fun c => strict_ne c 0) crosses = [] ->
  forallb (fun z => (0 <=? z)%Z) zs = true /\ forallb (fun z => (z <=? 0)%Z) zs = true.
Proof.
  induction 1 as [| c z crosses zs Hcz _ IH]; [split; reflexivity |].
  cbn [List.filter forallb]. rewrite (isInt_strict_ne c z Hcz).
  destruct (Z.eqb_spec z 0) as [-> | Hz]; cbn [negb]; [| discriminate].
  intros Hnil. destruct (IH Hnil) as [-> ->]. split; reflexivity.
Qed.

(** With at most one nonzero cross product, one of the integer tests
    passes. *)
Lemma one_nonzero_integer (crosses : list float) (zs : list Z) :
  Forall2 isInt crosses zs ->
  length (List.filter (fun c => strict_ne c 0) crosses) <= 1 ->
  forallb (fun z => (0 <=? z)%Z) zs || forallb (fun z => (z <=? 0)%Z) zs = true.
Proof.
  induction 1 as [| c z crosses zs Hcz Hrest IH]; [reflexivity |].
  cbn [List.filter forallb]. rewrite (isInt_strict_ne c z Hcz).
  destruct (Z.eqb_spec z 0) as [-> | Hz]; cbn [negb].
  - exact IH.
  - cbn [length]. intros Hlen.
    destruct (no_nonzero_integers crosses zs Hrest) as [-> ->].
    + destruct (List.filter _ crosses); [reflexivity | cbn in Hlen; lia].
    + rewrite !andb_true_r. lia.
Qed.

Lemma oneSign_integers (crosses : list float) (zs : list Z) :
  Forall2 isInt crosses zs ->
  oneSign (List.filter (fun c => strict_ne c 0) crosses)
  = forallb (fun z => (0 <=? z)%Z) zs || forallb (fun z => (z <=? 0)%Z) zs.
Proof.
  intros Hint. unfold oneSign.
  destruct (forallb_hasSign_integers crosses zs Hint) as [-> ->].
  destruct (Nat.leb_spec (length (List.filter (fun c => strict_ne c 0) crosses)) 1)
    as [Hle | Hgt]; [| rewrite <- orb_assoc; reflexivity].
  rewrite <- orb_assoc, (one_nonzero_integer crosses zs Hint Hle). reflexivity.
Qed.

(** On grid points [isConvex] is the exact test. *)
Lemma isConvex_gridCoords (poly : Polygon) (zs : list (Z * Z)) :
  Forall2 gridCoords poly zs -> isConvex poly = convexZ zs.
Proof.
  intros Hgrid. pose proof (Forall2_length _ _ _ Hgrid) as Hlen.
  rewrite isConvex_signVerdict, signVerdict_oneSign. unfold convexZ. rewrite <- Hlen.
  rewrite (oneSign_integers _ (map (crossAtZ zs) (seq 0 (length poly)))).
  - destruct (Nat.ltb_spec (length poly) 3), (Nat.leb_spec 3 (length poly));
      try lia; reflexivity.
  - apply Forall2_map_seq. intros i Hi%in_seq. apply crossAt_grid; [exact Hgrid | lia].
Qed.

(** Grid points have integer coordinates. *)
Lemma gridPoints_coords (poly : Polygon) :
  Forall gridPoint poly -> exists zs, Forall2 gridCoords poly zs.
Proof.
  induction 1 as [| p poly (zx & zy & Hx & Hy & Bx & By) _ [zs IH]].
  - exists []. constructor.
  - exists ((zx, zy) :: zs). constructor; [| exact IH]. repeat split; assumption.
Qed.

(** X16: on a polygon whose points have integer coordinates below [2^25] in
    absolute value, [isConvex] is exact: it answers [true] exactly when the
    polygon has at least 3 points and no two of the integer cross products
    at its vertices have opposite signs. *)
Theorem isConvex_integer_points (poly : Polygon) (zs : list (Z * Z)) :
  Forall2 gridCoords poly zs -> isConvex poly = convexZ zs.
Proof.
  intros Hgrid. pose proof (Forall2_length _ _ _ Hgrid) as Hlen.
  rewrite isConvex_signVerdict, signVerdict_oneSign. unfold convexZ. rewrite <- Hlen.
  rewrite (oneSign_integers _ (map (crossAtZ zs) (seq 0 (length poly)))).
  - destruct (Nat.ltb_spec (length poly) 3), (Nat.leb_spec 3 (length poly));
      try lia; reflexivity.
  - apply Forall2_map_seq. intros i Hi%in_seq. apply crossAt_grid; [exact Hgrid | lia].
Qed.

Lemma isConvex_integer_points_witness :
  isConvex arrowhead = convexZ [(0, 0); (4, 2); (0, 4); (1, 2)]%Z.
Proof.
  apply isConvex_integer_points. unfold arrowhead.
  repeat (apply List.Forall2_cons); [.. | apply List.Forall2_nil].
  all: unfold gridCoords, isInt; vm_compute.
  all: repeat split; try reflexivity; discriminate.
Defined.

(** X17: when the vertices of the triangles given have integer coordinates
    below [2^25] in absolute value, so have the vertices of every polygon
    returned by [mergeTrianglesToConvexPolygons], and every polygon returned
    is convex by the exact test on these integers. *)
Theorem grid_triangles_merge_convex (triangles : list Polygon) :
  Forall gridTriangle triangles ->
  Forall (fun poly => exists zs, Forall2 gridCoords poly zs /\ convexZ zs = true)
         (mergeTrianglesToConvexPolygons triangles).
Proof.
  intros Hgrid.
  pose proof (mergeTriangles_convexOrInput triangles) as Hconvex.
  destruct (merged_polygons_from_triangles_aux triangles) as [_ Hgrown].
  rewrite List.Forall_forall in Hgrid, Hconvex, Hgrown.
  apply List.Forall_forall. intros poly Hpoly.
  assert (Hpoints : Forall gridPoint poly).
  { destruct (Hgrown poly Hpoly) as [_ Hfrom].
    eapply List.Forall_impl; [| exact Hfrom].
    intros p (tri & Htri & Hp)%in_concat.
    destruct (Hgrid tri Htri) as (a & b & c & -> & Ha & Hb & Hc).
    destruct Hp as [<- | [<- | [<- | []]]]; assumption. }
  destruct (gridPoints_coords poly Hpoints) as [zs Hzs].
  exists zs. split; [exact Hzs |].
  rewrite <- (isConvex_gridCoords poly zs Hzs).
  destruct (Hconvex poly Hpoly) as [Hc | Hin]; [exact Hc |].
  destruct (Hgrid poly Hin) as (a & b & c & -> & Ha & Hb & Hc).
  now apply isConvex_grid_triangle.
Qed.

Lemma grid_triangles_merge_convex_witness :
  Forall (fun poly => exists zs, Forall2 gridCoords poly zs /\ convexZ zs = true)
         (mergeTrianglesToConvexPolygons [triangleABC; triangleABD]).
Proof.
  apply grid_triangles_merge_convex.
  assert (H00 : gridPoint (pt 0 0)).
  { apply (gridPoint_small 0 0); vm_compute; try reflexivity. }
  assert (H10 : gridPoint (pt 1 0)).
  { apply (gridPoint_small 1 0); vm_compute; try reflexivity; (split; [discriminate | reflexivity]). }
  assert (H11 : gridPoint (pt 1 1)).
  { apply (gridPoint_small 1 1); vm_compute; try reflexivity; (split; [discriminate | reflexivity]). }
  assert (H0m : gridPoint (pt 0 (-1))).
  { apply (gridPoint_small 0 (-1)); vm_compute; try reflexivity; (split; [discriminate | reflexivity]). }
  repeat (apply List.Forall_cons); [| | apply List.Forall_nil].
  - exists (pt 0 0), (pt 1 0), (pt 1 1). repeat split; assumption.
  - exists (pt 0 0), (pt 1 0), (pt 0 (-1)). repeat split; assumption.
Defined.

(** ** [shareEdge] does not depend on how the polygons are listed *)

Lemma pairs_combine {A B : Type} (l : list (A * B)) :
  l = combine (map fst l) (map snd l).
Proof. induction l as [| [a b] rest IH]; [reflexivity |]. cbn. now rewrite <- IH. Qed.

Lemma combine_app_short {A B : Type} (l1 r : list A) (l2 : list B) :
  length l2 <= length l1 -> combine (l1 ++ r) l2 = combine l1 l2.
Proof.
  revert l2. induction l1 as [| a l1 IH]; intros l2 Hlen.
  - destruct l2; [now destruct r | cbn in Hlen; lia].
  - destruct l2 as [| b l2]; [reflexivity |]. cbn. f_equal. apply IH. cbn in Hlen. lia.
Qed.

(** The edges of a polygon are the chain through its points and back to the
    first. *)
Lemma getEdges_chain (poly : Polygon) : getEdges poly = chain (poly ++ firstn 1 poly).
Proof.
  rewrite (pairs_combine (getEdges poly)), getEdges_map_fst, getEdges_map_snd.
  destruct poly as [| a rest]; [reflexivity |].
  change (firstn 1 (a :: rest)) with [a].
  unfold chain. cbn [tl app].
  change (a :: rest ++ [a]) with ((a :: rest) ++ [a]).
  symmetry. apply combine_app_short. rewrite length_app. cbn. lia.
Qed.

Lemma chain_app (l r : list Point) (p : Point) :
  chain (l ++ p :: r) = chain (l ++ [p]) ++ chain (p :: r).
Proof.
  induction l as [| a l IH]; [reflexivity |].
  destruct l as [| b l]; [reflexivity |].
  change (chain ((a :: b :: l) ++ p :: r)) with ((a, b) :: chain ((b :: l) ++ p :: r)).
  change (chain ((a :: b :: l) ++ [p])) with ((a, b) :: chain ((b :: l) ++ [p])).
  now rewrite IH.
Qed.

Lemma chain_rev (l : list Point) : chain (rev l) = rev (map swapEdge (chain l)).
Proof.
  induction l as [| a l IH]; [reflexivity |].
  destruct l as [| b l]; [reflexivity |].
  change (chain (a :: b :: l)) with ((a, b) :: chain (b :: l)).
  cbn [map rev]. rewrite <- IH. cbn [rev]. rewrite <- app_assoc. cbn [app].
  rewrite chain_app. reflexivity.
Qed.

(** Listing a polygon from another vertex gives the same edges in another
    order. *)
Lemma getEdges_rotated (l1 l2 : Polygon) :
  Permutation (getEdges (l2 ++ l1)) (getEdges (l1 ++ l2)).
Proof.
  destruct l1 as [| a l1]; [now rewrite app_nil_r |].
  destruct l2 as [| b l2]; [now rewrite app_nil_r |].
  rewrite !getEdges_chain.
  change (firstn 1 ((b :: l2) ++ a :: l1)) with [b].
  change (firstn 1 ((a :: l1) ++ b :: l2)) with [a].
  rewrite <- !app_assoc.
  change ((a :: l1) ++ [b]) with (a :: (l1 ++ [b])).
  change ((b :: l2) ++ [a]) with (b :: (l2 ++ [a])).
  rewrite (chain_app (b :: l2) (l1 ++ [b]) a), (chain_app (a :: l1) (l2 ++ [a]) b).
  apply Permutation_app_comm.
Qed.

(** Listing a polygon in the other direction gives its edges, each in the
    other direction, in another order. *)
Lemma getEdges_reversed (poly : Polygon) :
  Permutation (getEdges (rev poly)) (map swapEdge (getEdges poly)).
Proof.
  destruct poly as [| a rest]; [reflexivity |].
  cbn [rev]. rewrite (getEdges_rotated [a] (rev rest)).
  rewrite !getEdges_chain.
  change (firstn 1 ([a] ++ rev rest)) with [a].
  change (firstn 1 (a :: rest)) with [a].
  cbn [app].
  replace (a :: rev rest ++ [a]) with (rev (a :: rest ++ [a]))
    by (cbn [rev]; rewrite rev_app_distr; reflexivity).
  rewrite chain_rev. symmetry. apply Permutation_rev.
Qed.

Lemma existsb_permutation {A : Type} (f : A -> bool) (l1 l2 : list A) :
  Permutation l1 l2 -> existsb f l1 = existsb f l2.
Proof.
  induction 1 as [| a l1 l2 _ IH | a b l | l1 l2 l3 _ IH1 _ IH2]; cbn [existsb].
  - reflexivity.
  - now rewrite IH.
  - destruct (f a), (f b); reflexivity.
  - now rewrite IH1.
Qed.

Lemma existsb_mapped {A B : Type} (f : B -> bool) (g : A -> B) (l : list A) :
  existsb f (map g l) = existsb (fun a => f (g a)) l.
Proof. induction l as [| a rest IH]; cbn; [reflexivity | now rewrite IH]. Qed.

Lemma edgesMatch_swapEdge (e1 e2 : Point * Point) :
  edgesMatch (swapEdge e1) e2 = edgesMatch e1 e2.
Proof.
  unfold edgesMatch, swapEdge. cbn [fst snd].
  rewrite (andb_comm (pointsEqual (snd e1) (fst e2))).
  rewrite (andb_comm (pointsEqual (snd e1) (snd e2))). apply orb_comm.
Qed.

Lemma shareEdge_rotated (l1 l2 other : Polygon) :
  shareEdge (l2 ++ l1) other = shareEdge (l1 ++ l2) other.
Proof. unfold shareEdge. apply existsb_permutation, getEdges_rotated. Qed.

Lemma shareEdge_reversed (poly other : Polygon) :
  shareEdge (rev poly) other = shareEdge poly other.
Proof.
  unfold shareEdge.
  rewrite (existsb_permutation _ _ _ (getEdges_reversed poly)), existsb_mapped.
  apply existsb_pointwise. intros e1.
  apply existsb_pointwise. intros e2. apply edgesMatch_swapEdge.
Qed.

(** X18: whether two polygons share an edge does not depend on the vertex
    from which either polygon is listed, nor on the direction in which it is
    listed; so the same holds for whether [mergePolygons] returns [null]. *)
Theorem shareEdge_vertex_order (l1 l2 poly other : Polygon) :
  shareEdge (l2 ++ l1) other = shareEdge (l1 ++ l2) other
  /\ shareEdge other (l2 ++ l1) = shareEdge other (l1 ++ l2)
  /\ shareEdge (rev poly) other = shareEdge poly other
  /\ shareEdge other (rev poly) = shareEdge other poly
  /\ (mergePolygons (l2 ++ l1) other = None <-> mergePolygons (l1 ++ l2) other = None)
  /\ (mergePolygons (rev poly) other = None <-> mergePolygons poly other = None).
Proof.
  repeat split.
  - apply shareEdge_rotated.
  - rewrite !(shareEdge_sym other). apply shareEdge_rotated.
  - apply shareEdge_reversed.
  - rewrite !(shareEdge_sym other). apply shareEdge_reversed.
  - rewrite !mergePolygons_None, !findSharedEdge_None, shareEdge_rotated. tauto.
  - rewrite !mergePolygons_None, !findSharedEdge_None, shareEdge_rotated. tauto.
  - rewrite !mergePolygons_None, !findSharedEdge_None, shareEdge_reversed. tauto.
  - rewrite !mergePolygons_None, !findSharedEdge_None, shareEdge_reversed. tauto.
Qed.

(** * The area covered by the polygons returned *)

(** ** Integer coordinates *)







(** ** The cross product and the shoelace sum *)









(** ** Triangles *)



(** ** The edges of a polygon on integer coordinates *)

Lemma edgesZ_fst (poly : Polygon) : map fst (edgesZ poly) = map pointZ poly.
Proof.
  unfold edgesZ. rewrite map_map. cbn [fst].
  rewrite <- (getEdges_map_fst poly) at 2. now rewrite map_map.
Qed.

Lemma edgesZ_length (poly : Polygon) : length (edgesZ poly) = length poly.
Proof. unfold edgesZ. now rewrite length_map, getEdges_length. Qed.

(** The edge that starts at position [i]. *)
Lemma edgesZ_nth (poly : Polygon) (i : nat) (d : (Z * Z) * (Z * Z)) :
  i < length poly ->
  nth i (edgesZ poly) d
  = (nth i (map pointZ poly) (0, 0)%Z,
     nth ((i + 1) mod length poly) (map pointZ poly) (0, 0)%Z).
Proof.
  intros Hi. unfold edgesZ.
  rewrite (nth_indep _ d (pointZ undefinedPoint, pointZ undefinedPoint))
    by (now rewrite length_map, getEdges_length).
  pose proof (map_nth (fun e => (pointZ (fst e), pointZ (snd e))) (getEdges poly)
                (undefinedPoint, undefinedPoint) i) as Hmap.
  cbn [fst snd] in Hmap. rewrite Hmap, getEdges_nth by exact Hi.
  cbn [fst snd]. unfold at_index.
  change (0, 0)%Z with (pointZ undefinedPoint). now rewrite !map_nth.
Qed.

Lemma In_edgesZ (poly : Polygon) (e : (Z * Z) * (Z * Z)) :
  In e (edgesZ poly) <->
  exists i, i < length poly
            /\ e = (nth i (map pointZ poly) (0, 0)%Z,
                    nth ((i + 1) mod length poly) (map pointZ poly) (0, 0)%Z).
Proof.
  split.
  - intros Hin. destruct (In_nth _ _ e Hin) as (i & Hi & Hnth).
    rewrite edgesZ_length in Hi. exists i. split; [exact Hi |].
    rewrite <- Hnth. now apply edgesZ_nth.
  - intros (i & Hi & ->). rewrite <- (edgesZ_nth poly i ((0, 0), (0, 0))%Z Hi).
    apply nth_In. now rewrite edgesZ_length.
Qed.

Lemma In_edgesZ_fst (poly : Polygon) (P Q : Z * Z) :
  In (P, Q) (edgesZ poly) -> In P (map pointZ poly).
Proof.
  intros Hin. rewrite <- edgesZ_fst. now apply (in_map fst) in Hin.
Qed.

Lemma In_edgesZ_snd (poly : Polygon) (P Q : Z * Z) :
  In (P, Q) (edgesZ poly) -> In Q (map pointZ poly).
Proof.
  intros (i & Hi & [= -> ->])%In_edgesZ. apply nth_In. rewrite length_map.
  apply Nat.mod_upper_bound. lia.
Qed.

Lemma In_pointZ_edge (poly : Polygon) (P : Z * Z) :
  In P (map pointZ poly) -> exists Q, In (P, Q) (edgesZ poly).
Proof.
  intros Hin. destruct (In_nth _ _ (0, 0)%Z Hin) as (i & Hi & Hnth).
  rewrite length_map in Hi.
  exists (nth ((i + 1) mod length poly) (map pointZ poly) (0, 0)%Z).
  apply In_edgesZ. exists i. split; [exact Hi | now rewrite Hnth].
Qed.

Lemma successor_index (n i k : nat) :
  i < n -> k < n -> (i + 1) mod n = (k + 1) mod n -> i = k.
Proof.
  intros Hi Hk Heq.
  destruct (Nat.eq_dec (i + 1) n) as [Hin | Hin], (Nat.eq_dec (k + 1) n) as [Hkn | Hkn].
  - lia.
  - rewrite Hin, Nat.Div0.mod_same, (Nat.mod_small (k + 1)) in Heq by lia. lia.
  - rewrite Hkn, Nat.Div0.mod_same, (Nat.mod_small (i + 1)) in Heq by lia. lia.
  - rewrite !Nat.mod_small in Heq by lia. lia.
Qed.


Lemma edgesZ_predecessor (poly : Polygon) (P1 P2 Q : Z * Z) :
  List.NoDup (map pointZ poly) ->
  In (P1, Q) (edgesZ poly) -> In (P2, Q) (edgesZ poly) -> P1 = P2.
Proof.
  intros Hnodup (i & Hi & [= -> HQ])%In_edgesZ (k & Hk & [= -> HQ'])%In_edgesZ.
  assert (i = k) as ->; [| reflexivity].
  apply (successor_index (length poly)); try assumption.
  apply (proj1 (NoDup_nth (map pointZ poly) (0, 0)%Z) Hnodup);
    rewrite ?length_map; try (apply Nat.mod_upper_bound; lia). congruence.
Qed.






(** ** Matching edges on grid points *)



Lemma In_edgesZ_getEdges (poly : Polygon) (e : (Z * Z) * (Z * Z)) :
  In e (edgesZ poly) ->
  exists a b, In (a, b) (getEdges poly) /\ e = (pointZ a, pointZ b).
Proof.
  unfold edgesZ. intros ([a b] & <- & Hin)%in_map_iff. now exists a, b.
Qed.




(** ** The area that is left to visit *)








(** ** The merge step on triangles wound in one direction *)

Section FusedArea.

Variable winding : Z.
Hypothesis Hwinding : winding = 1%Z \/ winding = (-1)%Z.
Variable triangles : list Polygon.
Hypothesis Hgrid : Forall gridTriangle triangles.
Hypothesis Horient : Forall (fun tri => (0 < winding * twiceArea tri)%Z) triangles.
Hypothesis Hedges : forall i j e, i <> j ->
  In e (edgesZ (triangleAt triangles i)) -> In e (edgesZ (triangleAt triangles j)) -> False.










End FusedArea.

(** ** C2: the area of the walkable region *)

Lemma sameWinding_spec (triangles : list Polygon) :
  sameWinding triangles = true ->
  exists winding,
    (winding = 1%Z \/ winding = (-1)%Z)
    /\ Forall (fun tri => (0 < winding * twiceArea tri)%Z) triangles.
Proof.
  unfold sameWinding. intros [Hall | Hall]%orb_true_iff; rewrite forallb_forall in Hall.
  - exists 1%Z. split; [now left |]. apply List.Forall_forall. intros tri Htri.
    specialize (Hall tri Htri). lia.
  - exists (-1)%Z. split; [now right |]. apply List.Forall_forall. intros tri Htri.
    specialize (Hall tri Htri). lia.
Qed.







